(** * The history manager of the photo editor (src/modules/history.js)

    A shallow embedding of the undo/redo snapshot store: the two stacks of
    [ImageData] snapshots, the identity-keyed metadata side table
    ([metaMap], a JavaScript [WeakMap]), the taint flag, the count and byte
    limits with their eviction loops, the notification sink and the deferred
    thumbnail jobs.

    Conventions of the embedding.
    - The module-level [let] variables of history.js are the fields of one
      record, [History]; every exported function is a state transformer
      returning its JavaScript result next to the new state.
    - A JavaScript array used as a stack is a [list] whose head is index 0
      (the oldest entry): [push] appends at the end, [pop] removes the last
      element, [shift] removes the head.
    - Object identity, which keys the [WeakMap], is an allocation number
      [oid]; every [getImageData] and every [new ImageData] allocates a
      fresh one.
    - The canvas is the environment: each call that reads the surface is
      given the outcome of that read ([Env]).
    - The UI callback is an inert sink: the payloads it is called with are
      recorded in [uiLog].  Writes to [localStorage] (whose failures the
      code swallows) are not part of the state.
    - Counts, dimensions and byte totals are naturals ([N]): the doubles
      that carry them are exact on integers below 2^53. A number that
      reaches a configuration check is a [JS.number], its finite values
      rationals, on which comparison with a constant and [Math.floor] are
      exact. *)

From Stdlib Require Import ZArith NArith QArith Qround List Bool Lia.
From Stdlib Require Import Init.Byte.
From stdpp Require Import base gmap list strings.

Local Open Scope N_scope.

(** ** JavaScript values reaching the numeric configuration checks *)

Module JS.

(** A JavaScript number: a finite double (a rational), or one of the
    three non-finite values. *)
Inductive number :=
| Fin (q : Q)
| NaN
| PosInf
| NegInf.

(** What a caller may pass where a number is expected. [Other] stands for
    any value that is neither [undefined] nor of type number. *)
Inductive value :=
| Undefined
| Num (n : number)
| Other.

(** [Number.isFinite(v)], returning the finite value when it holds. *)
Definition finite (v : value) : option Q :=
  match v with
  | Num (Fin q) => Some q
  | _ => None
  end.

Definition isFinite (v : value) : bool :=
  match finite v with Some _ => true | None => false end.

(** Comparisons of a finite number with an integer constant. *)
Definition gt (q : Q) (k : Z) : bool := negb (Qle_bool q (inject_Z k)).
Definition ge (q : Q) (k : Z) : bool := Qle_bool (inject_Z k) q.
Definition le (q : Q) (k : Z) : bool := Qle_bool q (inject_Z k).

(** [Math.floor] of a finite number. *)
Definition floor (q : Q) : Z := Qfloor q.

(** [Math.floor] of a number known to be positive, as a natural. *)
Definition floorN (q : Q) : N := Z.to_N (floor q).

(** Truthiness of a number: [0] and [NaN] are falsy. *)
Definition truthy (n : number) : bool :=
  match n with
  | Fin q => negb (Qeq_bool q 0)
  | NaN => false
  | PosInf | NegInf => true
  end.

(** [d] when the argument of a destructuring default is [undefined]. *)
Definition orDefault (v : value) (d : value) : value :=
  match v with Undefined => d | _ => v end.

End JS.

(** ** Data model *)

(** An [ImageData] object: its identity, dimensions and RGBA bytes. *)
Record ImageData := mkImageData {
  oid : nat;
  width : N;
  height : N;
  data : list byte
}.

(** The value stored in [metaMap] for a snapshot. A field is [None] when
    the object has no such property. *)
Record Meta := mkMeta {
  ts : option Z;
  label : option string;
  thumbDataUrl : option string
}.

(** [getLimits()]. *)
Record Limits := mkLimits {
  lim_maxEntries : N;
  lim_maxBytes : option N;
  lim_protectReturned : bool
}.

(** One element of the [thumbnails] list of a payload. *)
Record Entry := mkEntry {
  en_index : nat;
  en_width : N;
  en_height : N;
  en_ts : Z;
  en_label : string;
  en_thumbDataUrl : option string
}.

(** The [extra] argument of [_updateUI], spread over the payload. *)
Inductive Extra :=
| NoExtra
| ExtraEmpty
| ExtraTainted (b : bool)
| ExtraLimits (l : Limits)
| ExtraThumbHeight (h : JS.number).

Record Payload := mkPayload {
  undoCount : nat;
  redoCount : nat;
  estimatedBytes : N;
  limits : Limits;
  thumbnails : list Entry;
  thumbPrefs : bool * JS.number;
  extra : Extra
}.

(** The module state. [ctxReady] is [canvasRef && ctxRef]; [sinkIsFunction]
    is [typeof updateUICallback === "function"]; [pendingThumbs] are the
    thumbnail jobs scheduled and not yet completed. *)
Record History := mkHistory {
  ctxReady : bool;
  undoStack : list ImageData;
  redoStack : list ImageData;
  sinkIsFunction : bool;
  isTainted : bool;
  maxEntries : N;
  maxBytes : option N;
  protectReturned : bool;
  thumbEnabled : bool;
  thumbHeight : JS.number;
  metaMap : gmap nat Meta;
  nextId : nat;
  pendingThumbs : list ImageData;
  uiLog : list Payload
}.

(** Field updates (assignments to one module variable). *)
Definition set_undoStack (v : list ImageData) (h : History) : History :=
  mkHistory (ctxReady h) v (redoStack h) (sinkIsFunction h) (isTainted h)
    (maxEntries h) (maxBytes h) (protectReturned h) (thumbEnabled h)
    (thumbHeight h) (metaMap h) (nextId h) (pendingThumbs h) (uiLog h).

Definition set_redoStack (v : list ImageData) (h : History) : History :=
  mkHistory (ctxReady h) (undoStack h) v (sinkIsFunction h) (isTainted h)
    (maxEntries h) (maxBytes h) (protectReturned h) (thumbEnabled h)
    (thumbHeight h) (metaMap h) (nextId h) (pendingThumbs h) (uiLog h).

Definition set_isTainted (v : bool) (h : History) : History :=
  mkHistory (ctxReady h) (undoStack h) (redoStack h) (sinkIsFunction h) v
    (maxEntries h) (maxBytes h) (protectReturned h) (thumbEnabled h)
    (thumbHeight h) (metaMap h) (nextId h) (pendingThumbs h) (uiLog h).

Definition set_maxEntries (v : N) (h : History) : History :=
  mkHistory (ctxReady h) (undoStack h) (redoStack h) (sinkIsFunction h)
    (isTainted h) v (maxBytes h) (protectReturned h) (thumbEnabled h)
    (thumbHeight h) (metaMap h) (nextId h) (pendingThumbs h) (uiLog h).

Definition set_thumbHeight (v : JS.number) (h : History) : History :=
  mkHistory (ctxReady h) (undoStack h) (redoStack h) (sinkIsFunction h)
    (isTainted h) (maxEntries h) (maxBytes h) (protectReturned h)
    (thumbEnabled h) v (metaMap h) (nextId h) (pendingThumbs h) (uiLog h).

Definition set_metaMap (v : gmap nat Meta) (h : History) : History :=
  mkHistory (ctxReady h) (undoStack h) (redoStack h) (sinkIsFunction h)
    (isTainted h) (maxEntries h) (maxBytes h) (protectReturned h)
    (thumbEnabled h) (thumbHeight h) v (nextId h) (pendingThumbs h) (uiLog h).

Definition set_nextId (v : nat) (h : History) : History :=
  mkHistory (ctxReady h) (undoStack h) (redoStack h) (sinkIsFunction h)
    (isTainted h) (maxEntries h) (maxBytes h) (protectReturned h)
    (thumbEnabled h) (thumbHeight h) (metaMap h) v (pendingThumbs h) (uiLog h).

Definition set_pendingThumbs (v : list ImageData) (h : History) : History :=
  mkHistory (ctxReady h) (undoStack h) (redoStack h) (sinkIsFunction h)
    (isTainted h) (maxEntries h) (maxBytes h) (protectReturned h)
    (thumbEnabled h) (thumbHeight h) (metaMap h) (nextId h) v (uiLog h).

Definition set_uiLog (v : list Payload) (h : History) : History :=
  mkHistory (ctxReady h) (undoStack h) (redoStack h) (sinkIsFunction h)
    (isTainted h) (maxEntries h) (maxBytes h) (protectReturned h)
    (thumbEnabled h) (thumbHeight h) (metaMap h) (nextId h)
    (pendingThumbs h) v.

(** ** The environment of a call *)

(** Outcome of [ctxRef.getImageData(0, 0, canvasRef.width, canvasRef.height)].
    An exception is classified the way the [catch] blocks classify it:
    [ReadSecurityError] when [e.name === "SecurityError"] or the message
    matches [/taint|SecurityError/i], [ReadOtherError] otherwise. *)
Inductive ReadResult :=
| ReadOk (w h : N) (px : list byte)
| ReadSecurityError
| ReadOtherError.

Record Env := mkEnv {
  canvasWidth : N;
  readSurface : ReadResult;
  now : Z
}.

(** The read as the code performs it: with [ctxRef] null the member access
    throws a [TypeError], which is not of the security class. *)
Definition getImageData (e : Env) (h : History) : ReadResult :=
  if ctxReady h then readSurface e else ReadOtherError.

(** ** Array primitives *)

(** [a.pop()]: the removed last element ([None] for [undefined]) and the
    array afterwards. *)
Definition pop {A} (a : list A) : option A * list A :=
  (list.last a, removelast a).

(** ** Queries *)

Definition getTainted (h : History) : bool := isTainted h.

Definition canUndo (h : History) : bool :=
  negb (isTainted h) && (0 <? length (undoStack h))%nat.

Definition canRedo (h : History) : bool :=
  negb (isTainted h) && (0 <? length (redoStack h))%nat.

Definition getUndoCount (h : History) : nat := length (undoStack h).
Definition getRedoCount (h : History) : nat := length (redoStack h).

Definition bytesPerPixel : N := 4.

(** One pass of [for (const s of stack) total += s.width * s.height * 4]. *)
Definition sumBytes (total : N) (stack : list ImageData) : N :=
  fold_left (fun t s => t + width s * height s * bytesPerPixel) stack total.

Definition estimate (undo redo : list ImageData) : N :=
  sumBytes (sumBytes 0 undo) redo.

Definition getEstimatedBytes (h : History) : N :=
  estimate (undoStack h) (redoStack h).

Definition getLimits (h : History) : Limits :=
  mkLimits (maxEntries h) (maxBytes h) (protectReturned h).

Definition getMaxEntries (h : History) : N := maxEntries h.

Definition getThumbPrefs (h : History) : bool * JS.number :=
  (thumbEnabled h, thumbHeight h).

(** [x || ""] for a string that may be absent. *)
Definition strOrEmpty (s : option string) : string :=
  match s with Some x => x | None => EmptyString end.

(** [m.thumbDataUrl || null]: the empty string is falsy. *)
Definition urlOrNull (s : option string) : option string :=
  match s with
  | Some EmptyString => None
  | Some x => Some x
  | None => None
  end.

(** The callback of [undoStack.map((imgData, idx) => ...)]. *)
Definition entryOf (mm : gmap nat Meta) (idx : nat) (imgData : ImageData) : Entry :=
  let m := default (mkMeta None None None) (mm !! oid imgData) in
  mkEntry idx (width imgData) (height imgData)
    (default 0%Z (ts m)) (strOrEmpty (label m)) (urlOrNull (thumbDataUrl m)).

Definition getHistoryThumbnails (h : History) : list Entry :=
  imap (entryOf (metaMap h)) (undoStack h).

(** ** Notification *)

Definition payloadOf (ex : Extra) (h : History) : Payload :=
  mkPayload (getUndoCount h) (getRedoCount h) (getEstimatedBytes h)
    (getLimits h) (getHistoryThumbnails h) (getThumbPrefs h) ex.

Definition _updateUI (ex : Extra) (h : History) : History :=
  if sinkIsFunction h then set_uiLog (uiLog h ++ [payloadOf ex h]) h else h.

(** ** Eviction *)

(** The loop [while (undoStack.length > maxEntries)] whose body shifts the
    head off the undo stack and deletes its metadata. [maxEntries] is a
    natural, so the test fails on the empty stack. *)
Fixpoint evictByCount (maxE : N) (undo : list ImageData) (mm : gmap nat Meta)
  : list ImageData * gmap nat Meta :=
  match undo with
  | [] => ([], mm)
  | evicted :: rest =>
      if maxE <? N.of_nat (length undo)
      then evictByCount maxE rest (delete (oid evicted) mm)
      else (undo, mm)
  end.

(** The loop [while (totalBytes > maxBytes && undoStack.length > 0)]. *)
Fixpoint evictByBytes (maxB : N) (redo undo : list ImageData) (mm : gmap nat Meta)
  : list ImageData * gmap nat Meta :=
  match undo with
  | [] => ([], mm)
  | evicted :: rest =>
      if maxB <? estimate undo redo
      then evictByBytes maxB redo rest (delete (oid evicted) mm)
      else (undo, mm)
  end.

(** [!maxBytes]: [undefined] and [0] are falsy. *)
Definition byteCap (mb : option N) : option N :=
  match mb with
  | Some 0 => None
  | Some b => Some b
  | None => None
  end.

Definition _enforceLimits (h : History) : History :=
  let '(undo1, mm1) := evictByCount (maxEntries h) (undoStack h) (metaMap h) in
  match byteCap (maxBytes h) with
  | None => set_metaMap mm1 (set_undoStack undo1 h)
  | Some maxB =>
      let '(undo2, mm2) := evictByBytes maxB (redoStack h) undo1 mm1 in
      set_metaMap mm2 (set_undoStack undo2 h)
  end.

(** ** Thumbnail jobs *)

(** [_scheduleThumbGeneration(imgData)]: the job is handed to
    [requestIdleCallback] or [setTimeout] and runs after the caller has
    returned. *)
Definition _scheduleThumbGeneration (imgData : ImageData) (h : History) : History :=
  set_pendingThumbs (pendingThumbs h ++ [imgData]) h.

(** How a job ends: with an encoded data URL (the [FileReader] [onload], or
    the synchronous [toDataURL] branch), or with an encoding failure, which
    resolves without touching the state. *)
Inductive ThumbOutcome :=
| Encoded (url : string)
| EncodeFailed.

(** [m.thumbDataUrl = url] on [metaMap.get(imgData) || {}]. *)
Definition attachThumb (url : string) (m : option Meta) : Meta :=
  let m0 := default (mkMeta None None None) m in
  mkMeta (ts m0) (label m0) (Some url).

(** Completion of the [k]-th pending job. *)
Definition thumbJobDone (k : nat) (out : ThumbOutcome) (h : History) : History :=
  match pendingThumbs h !! k with
  | None => h
  | Some imgData =>
      let h1 := set_pendingThumbs (delete k (pendingThumbs h)) h in
      match out with
      | EncodeFailed => h1
      | Encoded url =>
          let m := attachThumb url (metaMap h1 !! oid imgData) in
          _updateUI ExtraEmpty (set_metaMap (<[oid imgData := m]> (metaMap h1)) h1)
      end
  end.

(** ** Configuration *)

Definition DEFAULT_MAX_ENTRIES : N := 50.
Definition THUMB_DEFAULT_SIZE : JS.number := JS.Fin (inject_Z 96).

(** [Number.isFinite(v) && v > 0 ? Math.floor(v) : fallback]. *)
Definition positiveFloorOr {A} (some : N -> A) (fallback : A) (v : JS.value) : A :=
  match JS.finite v with
  | Some q => if JS.gt q 0 then some (JS.floorN q) else fallback
  | None => fallback
  end.

(** The options object of [initHistory], after destructuring: a numeric
    property is the value found there ([Undefined] when absent); a boolean
    property is the truthiness the code takes from it, its default when
    absent. [onUpdateUI] is recorded by whether it is a function. *)
Record Options := mkOptions {
  o_onUpdateUI : bool;
  o_maxEntries : JS.value;
  o_maxBytes : JS.value;
  o_protectReturned : bool;
  o_thumbnails : bool;
  o_thumbHeight : JS.value
}.

(** The second argument of [initHistory]: a function, a non-null object, or
    anything else. *)
Inductive InitArg :=
| ArgFunction
| ArgOptions (o : Options)
| ArgOther.

(** The initial thumbnail height accepted by [initHistory]:
    [Number.isFinite(th) && th > 16 && th <= 256]. *)
Definition initThumbHeight (th : JS.value) (prev : JS.number) : JS.number :=
  match JS.finite th with
  | Some q =>
      if JS.gt q 16 && JS.le q 256
      then JS.Fin (inject_Z (JS.floor q))
      else prev
  | None => prev
  end.

(** [initHistory(canvas, onChangeOrOptions)]. [hasCtx] tells whether
    [canvas.getContext("2d")] gave a context. *)
Definition initHistory (hasCtx : bool) (arg : InitArg) (h : History) : History :=
  let h1 :=
    match arg with
    | ArgFunction =>
        mkHistory hasCtx [] [] true false DEFAULT_MAX_ENTRIES None false
          (thumbEnabled h) (thumbHeight h) (metaMap h) (nextId h)
          (pendingThumbs h) (uiLog h)
    | ArgOptions o =>
        mkHistory hasCtx [] [] (o_onUpdateUI o) false
          (positiveFloorOr id DEFAULT_MAX_ENTRIES
             (JS.orDefault (o_maxEntries o)
                (JS.Num (JS.Fin (inject_Z (Z.of_N DEFAULT_MAX_ENTRIES))))))
          (positiveFloorOr Some None (o_maxBytes o))
          (o_protectReturned o) (o_thumbnails o)
          (initThumbHeight (o_thumbHeight o) (thumbHeight h))
          (metaMap h) (nextId h) (pendingThumbs h) (uiLog h)
    | ArgOther =>
        mkHistory hasCtx [] [] true false DEFAULT_MAX_ENTRIES None false
          (thumbEnabled h) (thumbHeight h) (metaMap h) (nextId h)
          (pendingThumbs h) (uiLog h)
    end in
  _updateUI NoExtra h1.

(** The state when the module has been loaded: [savedMaxEntries] and
    [savedThumbHeight] are [Number(localStorage.getItem(...))] for the two
    persisted keys. *)
Definition moduleState (savedMaxEntries savedThumbHeight : JS.number) : History :=
  mkHistory false [] [] true false
    (positiveFloorOr id DEFAULT_MAX_ENTRIES (JS.Num savedMaxEntries))
    None false true
    (if JS.truthy savedThumbHeight then savedThumbHeight else THUMB_DEFAULT_SIZE)
    ∅ 0%nat [] [].

(** [setMaxEntries(n)]. *)
Definition setMaxEntries (n : JS.value) (h : History) : History :=
  match JS.finite n with
  | None => h
  | Some q =>
      if JS.le q 0 then h
      else
        let h1 := set_maxEntries (JS.floorN q) h in
        let h2 := _enforceLimits h1 in
        _updateUI (ExtraLimits (getLimits h2)) h2
  end.

(** [setThumbHeight(h)]. *)
Definition setThumbHeight (v : JS.value) (h : History) : History :=
  match JS.finite v with
  | None => h
  | Some q =>
      if JS.ge q 48 && JS.le q 256
      then
        let h1 := set_thumbHeight (JS.Fin (inject_Z (JS.floor q))) h in
        _updateUI (ExtraThumbHeight (thumbHeight h1)) h1
      else h
  end.

(** ** Snapshots in and out *)

(** A fresh [ImageData] object. *)
Definition allocImageData (w ht : N) (px : list byte) (h : History)
  : ImageData * History :=
  (mkImageData (nextId h) w ht px, set_nextId (S (nextId h)) h).

(** [cloneImageData(imgData)]. *)
Definition cloneImageData (imgData : ImageData) (h : History)
  : ImageData * History :=
  allocImageData (width imgData) (height imgData) (data imgData) h.

(** [metaMap.set(img, { ts: Date.now(), label })]. *)
Definition setMeta (img : ImageData) (t : Z) (l : string) (h : History) : History :=
  set_metaMap (<[oid img := mkMeta (Some t) (Some l) None]> (metaMap h)) h.

(** [pushHistory(label)]. *)
Definition pushHistory (e : Env) (lbl : option string) (h : History)
  : bool * History :=
  if negb (ctxReady h) || (canvasWidth e =? 0) then (false, h)
  else
    match getImageData e h with
    | ReadOk w ht px =>
        let '(snapshot, h1) := allocImageData w ht px h in
        let h2 := set_undoStack (undoStack h1 ++ [snapshot]) h1 in
        let h3 := setMeta snapshot (now e) (strOrEmpty lbl) h2 in
        let h4 := set_redoStack [] h3 in
        let h5 := _enforceLimits h4 in
        let h6 :=
          if isTainted h5
          then _updateUI (ExtraTainted false) (set_isTainted false h5)
          else _updateUI NoExtra h5 in
        let h7 :=
          if thumbEnabled h6 then _scheduleThumbGeneration snapshot h6 else h6 in
        (true, h7)
    | ReadSecurityError =>
        (false, _updateUI (ExtraTainted true) (set_isTainted true h))
    | ReadOtherError => (false, h)
    end.

(** [undo()]. *)
Definition undo (e : Env) (h : History) : option ImageData * History :=
  if isTainted h || negb (canUndo h) then (None, h)
  else
    let captured :=
      match getImageData e h with
      | ReadOk w ht px =>
          let '(current, h1) := allocImageData w ht px h in
          let h2 := set_redoStack (redoStack h1 ++ [current]) h1 in
          inl (setMeta current (now e) "redo-base" h2)
      | ReadSecurityError =>
          inr (_updateUI (ExtraTainted true) (set_isTainted true h))
      | ReadOtherError => inl h
      end in
    match captured with
    | inr h' => (None, h')
    | inl h3 =>
        let '(prev, rest) := pop (undoStack h3) in
        let h4 := set_undoStack rest h3 in
        match prev with
        | Some p =>
            if protectReturned h4
            then let '(c, h5) := cloneImageData p h4 in
                 (Some c, _updateUI NoExtra h5)
            else (Some p, _updateUI NoExtra h4)
        | None => (None, _updateUI NoExtra h4)
        end
    end.

(** [redo()]. *)
Definition redo (e : Env) (h : History) : option ImageData * History :=
  if isTainted h || negb (canRedo h) then (None, h)
  else
    let '(next, rest) := pop (redoStack h) in
    let h0 := set_redoStack rest h in
    match next with
    | None => (None, h0)
    | Some nx =>
        let captured :=
          match getImageData e h0 with
          | ReadOk w ht px =>
              let '(current, h1) := allocImageData w ht px h0 in
              let h2 := set_undoStack (undoStack h1 ++ [current]) h1 in
              let h3 := setMeta current (now e) "undo-base" h2 in
              inl (_enforceLimits h3)
          | ReadSecurityError =>
              inr (_updateUI (ExtraTainted true) (set_isTainted true h0))
          | ReadOtherError => inl h0
          end in
        match captured with
        | inr h' => (None, h')
        | inl h4 =>
            if protectReturned h4
            then let '(c, h5) := cloneImageData nx h4 in
                 (Some c, _updateUI NoExtra h5)
            else (Some nx, _updateUI NoExtra h4)
        end
    end.

(** [restoreImageData(imgData)]: the canvas is resized and overwritten,
    which is the caller's environment here, then [pushHistory()] runs
    without a label. *)
Definition restoreImageData (e : Env) (h : History) : History :=
  if negb (ctxReady h) then h else snd (pushHistory e None h).

(** ** Calls and sessions *)

(** A call of the exported interface on an initialised history, or the
    completion of a background thumbnail job. *)
Inductive Op :=
| Push (e : Env) (lbl : option string)
| Undo (e : Env)
| Redo (e : Env)
| SetMaxEntries (n : JS.value)
| SetThumbHeight (v : JS.value)
| Restore (e : Env)
| ThumbDone (k : nat) (out : ThumbOutcome).

(** What a call returns to JavaScript. *)
Inductive Result :=
| RBool (b : bool)
| RImage (img : option ImageData)
| RUndefined.

Definition exec (op : Op) (h : History) : Result * History :=
  match op with
  | Push e lbl => let '(b, h') := pushHistory e lbl h in (RBool b, h')
  | Undo e => let '(r, h') := undo e h in (RImage r, h')
  | Redo e => let '(r, h') := redo e h in (RImage r, h')
  | SetMaxEntries n => (RUndefined, setMaxEntries n h)
  | SetThumbHeight v => (RUndefined, setThumbHeight v h)
  | Restore e => (RUndefined, restoreImageData e h)
  | ThumbDone k out => (RUndefined, thumbJobDone k out h)
  end.

Definition step (op : Op) (h : History) : History := snd (exec op h).

Definition run (ops : list Op) (h : History) : History :=
  fold_left (fun acc op => step op acc) ops h.

(** A session: the module is loaded, [initHistory] is called, then calls
    follow one another. *)
Definition session (savedMaxEntries savedThumbHeight : JS.number)
    (hasCtx : bool) (arg : InitArg) (ops : list Op) : History :=
  run ops (initHistory hasCtx arg (moduleState savedMaxEntries savedThumbHeight)).

(** ** Callers of the history module (src/modules/ui.js, src/app.js) *)

(** [Math.floor], [Math.min] and [Math.max] on JavaScript numbers: [NaN]
    is contagious, the infinities are the extremes. *)
Module JSMath.

Definition floor (n : JS.number) : JS.number :=
  match n with
  | JS.Fin q => JS.Fin (inject_Z (Qfloor q))
  | other => other
  end.

Definition min (a b : JS.number) : JS.number :=
  match a, b with
  | JS.NaN, _ | _, JS.NaN => JS.NaN
  | JS.NegInf, _ | _, JS.NegInf => JS.NegInf
  | JS.PosInf, x | x, JS.PosInf => x
  | JS.Fin x, JS.Fin y => if Qle_bool x y then JS.Fin x else JS.Fin y
  end.

Definition max (a b : JS.number) : JS.number :=
  match a, b with
  | JS.NaN, _ | _, JS.NaN => JS.NaN
  | JS.PosInf, _ | _, JS.PosInf => JS.PosInf
  | JS.NegInf, x | x, JS.NegInf => x
  | JS.Fin x, JS.Fin y => if Qle_bool x y then JS.Fin y else JS.Fin x
  end.

End JSMath.

(** ui.js, [applyHistSize(historyStripEl, h)]: the number of pixels written
    to the [--hist-thumb] property of the strip, [None] when there is no
    strip element. *)
Definition applyHistSize (hasStrip : bool) (h : JS.number) : option JS.number :=
  if negb hasStrip then None
  else Some (JSMath.max (JS.Fin (inject_Z 48))
               (JSMath.min (JS.Fin (inject_Z 256)) (JSMath.floor h))).

(** app.js, the [change] handler of the thumbnail size control, given
    [h = Number(histSize.value || 96)] and with the strip element present:
    the strip is resized, then the history is told. *)
Definition onHistSizeChange (h : JS.number) (hist : History)
  : option JS.number * History :=
  (applyHistSize true h, setThumbHeight (JS.Num h) hist).

(** The [disabled] flags written by [updateUndoRedoButtons]. *)
Record Controls := mkControls {
  undoDisabled : bool;
  redoDisabled : bool;
  saveDisabled : bool;
  brightnessDisabled : bool;
  contrastDisabled : bool;
  saturationDisabled : bool;
  vibranceDisabled : bool
}.

(** ui.js, [updateUndoRedoButtons], with every element present and the
    services bound to the history module as app.js binds them. *)
Definition updateUndoRedoButtons (h : History) : Controls :=
  let tainted := getTainted h in
  mkControls (tainted || negb (canUndo h)) (tainted || negb (canRedo h))
    tainted tainted tainted tainted tainted.

(** ui.js, the loops of the history strip's click handler:
    [for (i = 0; i < delta; i++) { data = undo(); if (data) drawImageData(data) }].
    [surface i] is the canvas as the [i]-th call finds it; the images
    handed to [drawImageData] are collected in order. *)
Fixpoint undoRepeatedly (delta : nat) (surface : nat → Env) (i : nat)
    (h : History) (drawn : list ImageData) : History * list ImageData :=
  match delta with
  | O => (h, drawn)
  | S d =>
      let '(data, h') := undo (surface i) h in
      undoRepeatedly d surface (S i) h'
        (match data with Some img => drawn ++ [img] | None => drawn end)
  end.

Fixpoint redoRepeatedly (delta : nat) (surface : nat → Env) (i : nat)
    (h : History) (drawn : list ImageData) : History * list ImageData :=
  match delta with
  | O => (h, drawn)
  | S d =>
      let '(data, h') := redo (surface i) h in
      redoRepeatedly d surface (S i) h'
        (match data with Some img => drawn ++ [img] | None => drawn end)
  end.

(** ui.js, the click handler of the entry at [idx] on a strip rendered with
    [currentIdx], as app.js configures it ([jumpTo] is null,
    [drawImageData] is given). *)
Definition stripClick (currentIdx idx : nat) (surface : nat → Env) (h : History)
  : History * list ImageData :=
  let delta := (Z.of_nat currentIdx - Z.of_nat idx)%Z in
  if (delta =? 0)%Z then (h, [])
  else if (0 <? delta)%Z then undoRepeatedly (Z.to_nat delta) surface 0 h []
  else redoRepeatedly (Z.to_nat (Z.abs delta)) surface 0 h [].

(** app.js, [getCurrentIndex]: [getHistoryThumbnails().length - 1]. *)
Definition getCurrentIndex (h : History) : Z :=
  (Z.of_nat (length (getHistoryThumbnails h)) - 1)%Z.

(** app.js at start-up: a saved [historyMax] that is a positive number is
    floored and passed to [setMaxEntries]. *)
Definition applySavedHistoryMax (saved : JS.value) (h : History) : History :=
  match JS.finite saved with
  | Some q =>
      if JS.gt q 0
      then setMaxEntries (JS.Num (JS.Fin (inject_Z (JS.floor q)))) h
      else h
  | None => h
  end.

(** The calls app.js makes after start-up: every one but [setMaxEntries]. *)
Definition afterStartup (op : Op) : bool :=
  match op with
  | SetMaxEntries _ => false
  | _ => true
  end.

(** ** Predicates used in the statements *)

(** The metadata table after the entries of [evicted] have been deleted,
    first to last. *)
Definition dropMeta (evicted : list ImageData) (mm : gmap nat Meta) : gmap nat Meta :=
  fold_left (fun m s => delete (oid s) m) evicted mm.

(** The count limit holds. *)
Definition withinCount (h : History) : Prop :=
  N.of_nat (length (undoStack h)) ≤ maxEntries h.

(** The byte total that the byte limit is compared with. *)
Definition totalBytes (h : History) : N := getEstimatedBytes h.

(** The surface read of a call succeeds. *)
Definition readsOk (e : Env) (h : History) : bool :=
  match getImageData e h with
  | ReadOk _ _ _ => true
  | _ => false
  end.

(** [setMaxEntries] accepts its argument. *)
Definition acceptedCount (n : JS.value) : bool :=
  match JS.finite n with
  | Some q => negb (JS.le q 0)
  | None => false
  end.

(** The calls that reach [_enforceLimits]: a push that succeeds (direct or
    through [restoreImageData]), a redo that captures the surface, an
    accepted [setMaxEntries]. *)
Definition runsEviction (op : Op) (h : History) : bool :=
  match op with
  | Push e lbl => (pushHistory e lbl h).1
  | Restore e => (pushHistory e None h).1
  | Redo e => negb (isTainted h) && canRedo h && readsOk e h
  | SetMaxEntries n => acceptedCount n
  | Undo _ | SetThumbHeight _ | ThumbDone _ _ => false
  end.

(** The call is a push. *)
Definition isPush (op : Op) : bool :=
  match op with
  | Push _ _ | Restore _ => true
  | _ => false
  end.

(** ** Concrete inputs *)

(** Two one-pixel surfaces with different bytes, a two-pixel surface, and a
    surface whose read is refused for security reasons. *)
Definition bytesA : list byte := [x01; x02; x03; x04].
Definition bytesB : list byte := [x05; x06; x07; x08].
Definition surfaceA : Env := mkEnv 1 (ReadOk 1 1 bytesA) 1000.
Definition surfaceB : Env := mkEnv 1 (ReadOk 1 1 bytesB) 2000.
Definition surfaceWide : Env := mkEnv 2 (ReadOk 2 1 (bytesA ++ bytesB)) 3000.
Definition surfaceBlocked : Env := mkEnv 1 ReadSecurityError 4000.

(** A surface whose read throws an error that is not of the security
    class. *)
Definition surfaceBroken : Env := mkEnv 1 ReadOtherError 5000.

(** [Number(null)] is [0]: nothing was persisted. *)
Definition nothingSaved : JS.number := JS.Fin 0.

(** [initHistory(canvas, { protectReturned: true })]. *)
Definition protectOptions : Options :=
  mkOptions true JS.Undefined JS.Undefined true true JS.Undefined.

(** [initHistory(canvas, { maxEntries: n, maxBytes: b })]. *)
Definition limitOptions (n b : JS.value) : Options :=
  mkOptions true n b false true JS.Undefined.

Definition jsInt (z : Z) : JS.value := JS.Num (JS.Fin (inject_Z z)).

(** The history after [initHistory(canvas, onChange)] on a fresh module. *)
Definition fresh : History :=
  initHistory true ArgFunction (moduleState nothingSaved nothingSaved).

(** A session with a byte limit of 12: a one-pixel image is loaded and
    pushed, then a two-pixel image is loaded and pushed. *)
Definition twoLoads : History :=
  session nothingSaved nothingSaved true
    (ArgOptions (limitOptions JS.Undefined (jsInt 12)))
    [Push surfaceA None; Push surfaceWide None].

(** A session that keeps one entry: the second push evicts the first
    snapshot (identity 0) while its thumbnail job is still pending. *)
Definition evictedBeforeThumb : History :=
  session nothingSaved nothingSaved true
    (ArgOptions (limitOptions (jsInt 1) JS.Undefined))
    [Push surfaceA None; Push surfaceB None].

(** ** Configuration values as the specification classifies them *)

(** A maxEntries that is not a positive number. *)
Definition nonPositive (v : JS.value) : bool :=
  match JS.finite v with
  | Some q => Qle_bool q 0
  | None => true
  end.

(** A thumbnail height outside [lo, hi]. *)
Definition outsideRange (lo hi : Z) (v : JS.value) : bool :=
  match JS.finite v with
  | Some q => negb (Qle_bool (inject_Z lo) q && Qle_bool q (inject_Z hi))
  | None => true
  end.

(** A thumbnail height that is not a number above 16 and at most 256. *)
Definition notAbove16UpTo256 (v : JS.value) : bool :=
  match JS.finite v with
  | Some q => Qle_bool q 16 || negb (Qle_bool q 256)
  | None => true
  end.

(** ** Predicates for the properties of stored snapshots *)

(** The snapshots the history holds, undo stack first. *)
Definition stored (h : History) : list ImageData :=
  undoStack h ++ redoStack h.

(** The identities on the two stacks are pairwise distinct, have all been
    allocated, and each has an entry in the metadata table. *)
Definition keyed (undo redo : list ImageData) (mm : gmap nat Meta) (next : nat)
  : Prop :=
  NoDup (oid <$> (undo ++ redo))
  ∧ ∀ s, s ∈ undo ++ redo → (oid s < next)%nat ∧ is_Some (mm !! oid s).

Definition wellKeyed (h : History) : Prop :=
  keyed (undoStack h) (redoStack h) (metaMap h) (nextId h).

(** Dimensions and bytes of an image, its identity left out. *)
Definition pixelsOf (img : ImageData) : N * N * list byte :=
  (width img, height img, data img).

(** What [undo] and [redo] hand back for the stored snapshot [p]: a copy
    with the identity [fresh] when [protectReturned] is set, [p] itself
    otherwise. *)
Definition handedBack (protect : bool) (fresh : nat) (p : ImageData) : ImageData :=
  if protect then mkImageData fresh (width p) (height p) (data p) else p.

(** The byte limit, when one is in force, holds. *)
Definition withinBytes (h : History) : Prop :=
  match byteCap (maxBytes h) with
  | Some maxB => getEstimatedBytes h ≤ maxB
  | None => True
  end.

(** Bytes of one snapshot as the estimate counts them. *)
Definition bytesOf (s : ImageData) : N := width s * height s * bytesPerPixel.

(** The fields that [extra] spreads over the payload, overriding [limits]
    or adding [tainted] or [thumbHeight], carry the values of [h]. *)
Definition extraAgrees (ex : Extra) (h : History) : Prop :=
  match ex with
  | NoExtra | ExtraEmpty => True
  | ExtraTainted b => b = isTainted h
  | ExtraLimits l => l = getLimits h
  | ExtraThumbHeight n => n = thumbHeight h
  end.

(** The [extra] argument a call passes to [_updateUI] when it ends in the
    state [h'] having started in [h]: the taint flag when the call changed
    or set it, the limits for [setMaxEntries], the height for
    [setThumbHeight], the empty object for a thumbnail completion. *)
Definition extraSent (op : Op) (h h' : History) : Extra :=
  match op with
  | Push _ _ | Restore _ =>
      if isTainted h' then ExtraTainted true
      else if isTainted h then ExtraTainted false else NoExtra
  | Undo _ | Redo _ => if isTainted h' then ExtraTainted true else NoExtra
  | SetMaxEntries _ => ExtraLimits (getLimits h')
  | SetThumbHeight _ => ExtraThumbHeight (thumbHeight h')
  | ThumbDone _ _ => ExtraEmpty
  end.

(** Between [h] and [h'] the UI callback was not called, or was called once
    with the payload computed from [h'] and the extra [ex]. *)
Definition reportsState (ex : Extra) (h h' : History) : Prop :=
  uiLog h' = uiLog h ∨ uiLog h' = uiLog h ++ [payloadOf ex h'].

(** A session that keeps two entries and has pushed two. *)
Definition keepsTwo : History :=
  run [Push surfaceA None; Push surfaceWide None] (setMaxEntries (jsInt 2) fresh).

(** * Properties *)

(** ** The notification sink leaves the store alone *)

Section UpdateUI.
Variables (ex : Extra) (h : History).

Lemma updateUI_undoStack : undoStack (_updateUI ex h) = undoStack h.
Proof. unfold _updateUI. by destruct (sinkIsFunction h). Qed.

Lemma updateUI_redoStack : redoStack (_updateUI ex h) = redoStack h.
Proof. unfold _updateUI. by destruct (sinkIsFunction h). Qed.

Lemma updateUI_isTainted : isTainted (_updateUI ex h) = isTainted h.
Proof. unfold _updateUI. by destruct (sinkIsFunction h). Qed.

Lemma updateUI_maxEntries : maxEntries (_updateUI ex h) = maxEntries h.
Proof. unfold _updateUI. by destruct (sinkIsFunction h). Qed.

Lemma updateUI_maxBytes : maxBytes (_updateUI ex h) = maxBytes h.
Proof. unfold _updateUI. by destruct (sinkIsFunction h). Qed.

Lemma updateUI_metaMap : metaMap (_updateUI ex h) = metaMap h.
Proof. unfold _updateUI. by destruct (sinkIsFunction h). Qed.

Lemma updateUI_thumbHeight : thumbHeight (_updateUI ex h) = thumbHeight h.
Proof. unfold _updateUI. by destruct (sinkIsFunction h). Qed.

Lemma updateUI_thumbEnabled : thumbEnabled (_updateUI ex h) = thumbEnabled h.
Proof. unfold _updateUI. by destruct (sinkIsFunction h). Qed.

Lemma updateUI_protectReturned :
  protectReturned (_updateUI ex h) = protectReturned h.
Proof. unfold _updateUI. by destruct (sinkIsFunction h). Qed.
End UpdateUI.

Create Rewrite HintDb ui.
#[local] Hint Rewrite updateUI_undoStack updateUI_redoStack updateUI_isTainted
  updateUI_maxEntries updateUI_maxBytes updateUI_metaMap updateUI_thumbHeight
  updateUI_thumbEnabled updateUI_protectReturned : ui.

(** ** Eviction *)

Lemma dropMeta_app (l1 l2 : list ImageData) (mm : gmap nat Meta) :
  dropMeta (l1 ++ l2) mm = dropMeta l2 (dropMeta l1 mm).
Proof. unfold dropMeta. apply fold_left_app. Qed.

Lemma dropMeta_absent (l : list ImageData) (mm : gmap nat Meta) (i : nat) :
  mm !! i = None → dropMeta l mm !! i = None.
Proof.
  revert mm. induction l as [|s l IH]; intros mm Hi; [done|].
  cbn. apply IH. rewrite lookup_delete. by case_decide.
Qed.

Lemma dropMeta_evicted (l : list ImageData) (mm : gmap nat Meta) (s : ImageData) :
  s ∈ l → dropMeta l mm !! oid s = None.
Proof.
  revert mm. induction l as [|x l IH]; intros mm Hin.
  - by apply elem_of_nil in Hin.
  - apply elem_of_cons in Hin as [->|Hin]; cbn.
    + apply dropMeta_absent, lookup_delete_eq.
    + by apply IH.
Qed.

Lemma dropMeta_kept (l : list ImageData) (mm : gmap nat Meta) (i : nat) :
  i ∉ oid <$> l → dropMeta l mm !! i = mm !! i.
Proof.
  revert mm. induction l as [|x l IH]; intros mm Hni; [done|].
  cbn in *. apply not_elem_of_cons in Hni as [Hne Hni].
  rewrite IH by done. by apply lookup_delete_ne.
Qed.

Lemma evictByCount_cons (maxE : N) (s : ImageData) (rest : list ImageData)
    (mm : gmap nat Meta) :
  evictByCount maxE (s :: rest) mm =
    if maxE <? N.of_nat (S (length rest))
    then evictByCount maxE rest (delete (oid s) mm)
    else (s :: rest, mm).
Proof. reflexivity. Qed.

Lemma evictByBytes_cons (maxB : N) (redo : list ImageData) (s : ImageData)
    (rest : list ImageData) (mm : gmap nat Meta) :
  evictByBytes maxB redo (s :: rest) mm =
    if maxB <? estimate (s :: rest) redo
    then evictByBytes maxB redo rest (delete (oid s) mm)
    else (s :: rest, mm).
Proof. reflexivity. Qed.

(** Both loops remove a prefix of the undo stack, index 0 first, and
    delete exactly the metadata of what they remove. *)
Lemma evictByCount_prefix (maxE : N) (undo : list ImageData) (mm : gmap nat Meta) :
  ∃ k, evictByCount maxE undo mm = (drop k undo, dropMeta (take k undo) mm).
Proof.
  revert mm. induction undo as [|s rest IH]; intros mm.
  - by exists 0%nat.
  - rewrite evictByCount_cons. destruct (maxE <? _).
    + destruct (IH (delete (oid s) mm)) as [k Hk]. by exists (S k).
    + by exists 0%nat.
Qed.

Lemma evictByBytes_prefix (maxB : N) (redo undo : list ImageData)
    (mm : gmap nat Meta) :
  ∃ k, evictByBytes maxB redo undo mm = (drop k undo, dropMeta (take k undo) mm).
Proof.
  revert mm. induction undo as [|s rest IH]; intros mm.
  - by exists 0%nat.
  - rewrite evictByBytes_cons. destruct (maxB <? _).
    + destruct (IH (delete (oid s) mm)) as [k Hk]. by exists (S k).
    + by exists 0%nat.
Qed.

(** What the loops establish when they stop. *)
Lemma evictByCount_bound (maxE : N) (undo : list ImageData) (mm : gmap nat Meta) :
  N.of_nat (length (evictByCount maxE undo mm).1) ≤ maxE.
Proof.
  revert mm. induction undo as [|s rest IH]; intros mm.
  - cbn. lia.
  - rewrite evictByCount_cons. destruct (maxE <? _) eqn:E; [apply IH|].
    apply N.ltb_ge in E. cbn [fst length]. lia.
Qed.

Lemma evictByBytes_bound (maxB : N) (redo undo : list ImageData)
    (mm : gmap nat Meta) :
  let undo' := (evictByBytes maxB redo undo mm).1 in
  estimate undo' redo ≤ maxB ∨ undo' = [].
Proof.
  revert mm. induction undo as [|s rest IH]; intros mm.
  - by right.
  - rewrite evictByBytes_cons. destruct (maxB <? _) eqn:E; [apply IH|].
    apply N.ltb_ge in E. by left.
Qed.

Lemma evictByCount_id (maxE : N) (undo : list ImageData) (mm : gmap nat Meta) :
  N.of_nat (length undo) ≤ maxE → evictByCount maxE undo mm = (undo, mm).
Proof.
  destruct undo as [|s rest]; [done|]. intros Hle.
  rewrite evictByCount_cons.
  destruct (maxE <? _) eqn:E; [|done]. apply N.ltb_lt in E. cbn in Hle. lia.
Qed.

(** [_enforceLimits] touches the undo stack and the metadata only. *)
Section EnforceFrame.
Variable h : History.

Lemma enforce_redoStack : redoStack (_enforceLimits h) = redoStack h.
Proof.
  unfold _enforceLimits. destruct (evictByCount _ _ _) as [u1 m1].
  destruct (byteCap _); [destruct (evictByBytes _ _ _ _)|]; done.
Qed.

Lemma enforce_maxEntries : maxEntries (_enforceLimits h) = maxEntries h.
Proof.
  unfold _enforceLimits. destruct (evictByCount _ _ _) as [u1 m1].
  destruct (byteCap _); [destruct (evictByBytes _ _ _ _)|]; done.
Qed.

Lemma enforce_maxBytes : maxBytes (_enforceLimits h) = maxBytes h.
Proof.
  unfold _enforceLimits. destruct (evictByCount _ _ _) as [u1 m1].
  destruct (byteCap _); [destruct (evictByBytes _ _ _ _)|]; done.
Qed.

Lemma enforce_isTainted : isTainted (_enforceLimits h) = isTainted h.
Proof.
  unfold _enforceLimits. destruct (evictByCount _ _ _) as [u1 m1].
  destruct (byteCap _); [destruct (evictByBytes _ _ _ _)|]; done.
Qed.

Lemma enforce_thumbEnabled : thumbEnabled (_enforceLimits h) = thumbEnabled h.
Proof.
  unfold _enforceLimits. destruct (evictByCount _ _ _) as [u1 m1].
  destruct (byteCap _); [destruct (evictByBytes _ _ _ _)|]; done.
Qed.

Lemma enforce_protectReturned :
  protectReturned (_enforceLimits h) = protectReturned h.
Proof.
  unfold _enforceLimits. destruct (evictByCount _ _ _) as [u1 m1].
  destruct (byteCap _); [destruct (evictByBytes _ _ _ _)|]; done.
Qed.

Lemma enforce_uiLog : uiLog (_enforceLimits h) = uiLog h.
Proof.
  unfold _enforceLimits. destruct (evictByCount _ _ _) as [u1 m1].
  destruct (byteCap _); [destruct (evictByBytes _ _ _ _)|]; done.
Qed.
End EnforceFrame.

#[local] Hint Rewrite enforce_redoStack enforce_maxEntries enforce_maxBytes
  enforce_isTainted enforce_thumbEnabled enforce_protectReturned : ui.

(** The stack and the table after [_enforceLimits], as a prefix removal. *)
Lemma enforce_prefix (h : History) :
  ∃ k, undoStack (_enforceLimits h) = drop k (undoStack h)
     ∧ metaMap (_enforceLimits h) = dropMeta (take k (undoStack h)) (metaMap h).
Proof.
  unfold _enforceLimits.
  destruct (evictByCount_prefix (maxEntries h) (undoStack h) (metaMap h))
    as [k1 ->].
  destruct (byteCap (maxBytes h)) as [maxB|]; [|by exists k1].
  destruct (evictByBytes_prefix maxB (redoStack h) (drop k1 (undoStack h))
              (dropMeta (take k1 (undoStack h)) (metaMap h))) as [k2 ->].
  exists (k1 + k2)%nat. cbn. split.
  - apply drop_drop.
  - by rewrite <- take_take_drop, dropMeta_app.
Qed.

Lemma enforce_count_bound (h : History) (m : N) :
  maxEntries h = m →
  N.of_nat (length (undoStack (_enforceLimits h))) ≤ m.
Proof.
  intros <-. unfold _enforceLimits.
  pose proof (evictByCount_bound (maxEntries h) (undoStack h) (metaMap h)) as Hb.
  destruct (evictByCount _ _ _) as [u1 m1]. cbn in Hb.
  destruct (byteCap (maxBytes h)) as [maxB|]; [|done].
  destruct (evictByBytes_prefix maxB (redoStack h) u1 m1) as [k ->]. cbn.
  rewrite length_drop. lia.
Qed.

Lemma enforce_byte_bound (h : History) (maxB : N) :
  byteCap (maxBytes h) = Some maxB →
  getEstimatedBytes (_enforceLimits h) ≤ maxB
  ∨ undoStack (_enforceLimits h) = [].
Proof.
  intros Hcap. unfold getEstimatedBytes. rewrite enforce_redoStack.
  unfold _enforceLimits. destruct (evictByCount _ _ _) as [u1 m1].
  rewrite Hcap.
  pose proof (evictByBytes_bound maxB (redoStack h) u1 m1) as Hb.
  destruct (evictByBytes _ _ _ _) as [u2 m2]. exact Hb.
Qed.

Arguments _updateUI : simpl never.
Arguments _enforceLimits : simpl never.

(** Case analysis on the next branch of the code under scrutiny. *)
Ltac branch :=
  match goal with
  | |- context [match ?x with _ => _ end] => destruct x eqn:?
  | H : context [match ?x with _ => _ end] |- _ => destruct x eqn:?
  end.

Ltac frame :=
  cbn in *; repeat (progress (autorewrite with ui in *; cbn in *)).

Ltac branches := repeat (branch; simplify_eq; frame).

(** ** Queries *)

(** C10. [canUndo()] is true exactly when the history is not tainted and
    the undo stack is non-empty, [canRedo()] exactly when it is not tainted
    and the redo stack is non-empty; while tainted both are false whatever
    the stacks hold. *)
Theorem canUndo_canRedo_iff (h : History) :
  (canUndo h = true ↔ isTainted h = false ∧ undoStack h ≠ [])
  ∧ (canRedo h = true ↔ isTainted h = false ∧ redoStack h ≠ [])
  ∧ (isTainted h = true → canUndo h = false ∧ canRedo h = false).
Proof.
  unfold canUndo, canRedo.
  destruct (isTainted h), (undoStack h), (redoStack h); cbn;
    intuition congruence.
Qed.

(** ** Eviction order *)

(** C9. Whatever [_enforceLimits] removes, for the count limit or for the
    byte limit, is a prefix of the undo stack: the [k] oldest entries in
    insertion order, index 0 first, with no regard to size or label. The
    survivors keep their order, the redo stack is untouched, and the
    metadata entry of every removed snapshot is deleted with it. *)
Theorem enforceLimits_evicts_oldest (h : History) :
  ∃ k : nat,
    undoStack (_enforceLimits h) = drop k (undoStack h)
    ∧ redoStack (_enforceLimits h) = redoStack h
    ∧ metaMap (_enforceLimits h) = dropMeta (take k (undoStack h)) (metaMap h)
    ∧ (∀ s, s ∈ take k (undoStack h) →
            metaMap (_enforceLimits h) !! oid s = None).
Proof.
  destruct (enforce_prefix h) as (k & Hu & Hm). exists k.
  split; [done|]. split; [apply enforce_redoStack|]. split; [done|].
  intros s Hs. rewrite Hm. by apply dropMeta_evicted.
Qed.

(** ** The count limit *)

Lemma pushHistory_withinCount (e : Env) (lbl : option string) (h : History) :
  withinCount h → withinCount (pushHistory e lbl h).2.
Proof.
  unfold withinCount, pushHistory. intros Hh.
  branches; try done; by apply enforce_count_bound.
Qed.

Lemma removelast_shorter {A} (l : list A) :
  (length (removelast l) ≤ length l)%nat.
Proof.
  induction l as [|x [|y l] IH]; cbn in *; lia.
Qed.

Lemma undo_withinCount (e : Env) (h : History) :
  withinCount h → withinCount (undo e h).2.
Proof.
  unfold withinCount, undo, pop. intros Hh.
  branches; try done;
    match goal with
    | |- context [removelast ?l] => pose proof (removelast_shorter l); lia
    end.
Qed.

Lemma redo_withinCount (e : Env) (h : History) :
  withinCount h → withinCount (redo e h).2.
Proof.
  unfold withinCount, redo, pop. intros Hh.
  branches; try done; by apply enforce_count_bound.
Qed.

Lemma setMaxEntries_withinCount (n : JS.value) (h : History) :
  withinCount h → withinCount (setMaxEntries n h).
Proof.
  unfold withinCount, setMaxEntries. intros Hh.
  branches; try done; by apply enforce_count_bound.
Qed.

Lemma setThumbHeight_withinCount (v : JS.value) (h : History) :
  withinCount h → withinCount (setThumbHeight v h).
Proof.
  unfold withinCount, setThumbHeight. intros Hh.
  branches; done.
Qed.

Lemma thumbJobDone_withinCount (k : nat) (out : ThumbOutcome) (h : History) :
  withinCount h → withinCount (thumbJobDone k out h).
Proof.
  unfold withinCount, thumbJobDone. intros Hh.
  branches; done.
Qed.

Lemma step_withinCount (op : Op) (h : History) :
  withinCount h → withinCount (step op h).
Proof.
  intros Hh. destruct op as [e lbl|e|e|n|v|e|k out]; unfold step, exec.
  - pose proof (pushHistory_withinCount e lbl h Hh).
    by destruct (pushHistory e lbl h).
  - pose proof (undo_withinCount e h Hh). by destruct (undo e h).
  - pose proof (redo_withinCount e h Hh). by destruct (redo e h).
  - by apply setMaxEntries_withinCount.
  - by apply setThumbHeight_withinCount.
  - cbn. unfold restoreImageData. destruct (negb (ctxReady h)); [done|].
    by apply pushHistory_withinCount.
  - by apply thumbJobDone_withinCount.
Qed.

Lemma run_withinCount (ops : list Op) (h : History) :
  withinCount h → withinCount (run ops h).
Proof.
  revert h. induction ops as [|op ops IH]; intros h Hh; [done|].
  cbn. by apply IH, step_withinCount.
Qed.

Lemma initHistory_withinCount (hasCtx : bool) (arg : InitArg) (h : History) :
  withinCount (initHistory hasCtx arg h).
Proof.
  unfold withinCount, initHistory. destruct arg; frame; lia.
Qed.

(** C3. In every session, after each call of push, undo, redo or
    setMaxEntries (and of every other call of the interface), the undo
    stack holds at most [maxEntries] snapshots, also right after a
    setMaxEntries that lowers the limit below the current length. The
    statement ranges over every prefix of the calls made. *)
Theorem undoStack_within_maxEntries
    (savedMaxEntries savedThumbHeight : JS.number) (hasCtx : bool)
    (arg : InitArg) (ops : list Op) (n : nat) :
  let h := session savedMaxEntries savedThumbHeight hasCtx arg (take n ops) in
  N.of_nat (getUndoCount h) ≤ getMaxEntries h.
Proof.
  cbn. unfold session. apply run_withinCount, initHistory_withinCount.
Qed.

(** ** Push and the redo stack *)

(** The state left by a push that returns [true]. *)
Lemma pushHistory_true (e : Env) (lbl : option string) (h h' : History) :
  pushHistory e lbl h = (true, h') →
  redoStack h' = [] ∧ isTainted h' = false
  ∧ maxBytes h' = maxBytes h ∧ maxEntries h' = maxEntries h
  ∧ ∃ w ht px,
      getImageData e h = ReadOk w ht px
      ∧ undoStack h' =
          undoStack (_enforceLimits (set_redoStack []
            (setMeta (mkImageData (nextId h) w ht px) (now e) (strOrEmpty lbl)
              (set_undoStack (undoStack h ++ [mkImageData (nextId h) w ht px])
                 (set_nextId (S (nextId h)) h))))).
Proof.
  unfold pushHistory. intros H. branches; try done; eauto 10.
Qed.

(** The state left by a push that returns [false]: only the taint flag and
    the notification log can differ. *)
Lemma pushHistory_false (e : Env) (lbl : option string) (h h' : History) :
  pushHistory e lbl h = (false, h') →
  undoStack h' = undoStack h ∧ redoStack h' = redoStack h
  ∧ metaMap h' = metaMap h
  ∧ (isTainted h' = isTainted h ∨ isTainted h' = true).
Proof.
  unfold pushHistory. intros H. branches; try done; eauto 10.
Qed.

(** C5, as amended. Every push that succeeds (returns [true]) leaves the
    redo stack empty, so [getRedoCount()] is 0 right after it; a push that
    returns [false] (empty or uninitialised surface, failed surface read)
    leaves the redo stack as it was. *)
Theorem successful_push_clears_redo
    (e : Env) (lbl : option string) (h h' : History) (b : bool) :
  pushHistory e lbl h = (b, h') →
  if b
  then redoStack h' = [] ∧ getRedoCount h' = 0%nat
  else redoStack h' = redoStack h ∧ getRedoCount h' = getRedoCount h.
Proof.
  intros H. destruct b.
  - apply pushHistory_true in H as (Hr & _). unfold getRedoCount.
    by rewrite Hr.
  - apply pushHistory_false in H as (_ & Hr & _). unfold getRedoCount.
    by rewrite Hr.
Qed.

(** On the history after two pushes and an undo (one entry on each stack):
    a push that succeeds, and a push whose read is refused. *)
Lemma successful_push_clears_redo_witness :
  let h := run [Push surfaceA None; Push surfaceB None; Undo surfaceB] fresh in
  let h1 := (pushHistory surfaceA None h).2 in
  let h2 := (pushHistory surfaceBlocked None h).2 in
  (pushHistory surfaceA None h = (true, h1)
   ∧ redoStack h1 = [] ∧ getRedoCount h1 = 0%nat)
  ∧ (pushHistory surfaceBlocked None h = (false, h2)
     ∧ redoStack h2 = redoStack h ∧ getRedoCount h2 = getRedoCount h).
Proof.
  cbv zeta. split.
  - split; [vm_compute; reflexivity|].
    apply (successful_push_clears_redo surfaceA None
             (run [Push surfaceA None; Push surfaceB None; Undo surfaceB] fresh)
             _ true).
    vm_compute; reflexivity.
  - split; [vm_compute; reflexivity|].
    apply (successful_push_clears_redo surfaceBlocked None
             (run [Push surfaceA None; Push surfaceB None; Undo surfaceB] fresh)
             _ false).
    vm_compute; reflexivity.
Defined.

(** C5, as stated, fails: a push whose surface read is refused returns
    [false] and leaves the redo entry of the preceding undo in place. *)
Lemma failed_push_keeps_redo :
  let h := run [Push surfaceA None; Push surfaceB None; Undo surfaceB] fresh in
  (pushHistory surfaceBlocked None h).1 = false
  ∧ getRedoCount (pushHistory surfaceBlocked None h).2 = 1%nat.
Proof. split; vm_compute; reflexivity. Qed.

(** ** The taint flag *)

Lemma undo_tainted (e : Env) (h : History) :
  isTainted h = true → undo e h = (None, h).
Proof. unfold undo. by intros ->. Qed.

Lemma redo_tainted (e : Env) (h : History) :
  isTainted h = true → redo e h = (None, h).
Proof. unfold redo. by intros ->. Qed.

Lemma undo_keeps_taint (e : Env) (h : History) :
  isTainted h = true → isTainted (undo e h).2 = true.
Proof. intros Ht. by rewrite undo_tainted. Qed.

Lemma setMaxEntries_isTainted (n : JS.value) (h : History) :
  isTainted (setMaxEntries n h) = isTainted h.
Proof. unfold setMaxEntries. branches; done. Qed.

Lemma setThumbHeight_isTainted (v : JS.value) (h : History) :
  isTainted (setThumbHeight v h) = isTainted h.
Proof. unfold setThumbHeight. branches; done. Qed.

Lemma thumbJobDone_isTainted (k : nat) (out : ThumbOutcome) (h : History) :
  isTainted (thumbJobDone k out h) = isTainted h.
Proof. unfold thumbJobDone. branches; done. Qed.

Lemma pushHistory_result (e : Env) (lbl : option string) (h : History) :
  (∃ h', pushHistory e lbl h = (true, h') ∧ isTainted h' = false)
  ∨ (∃ h', pushHistory e lbl h = (false, h')
           ∧ (isTainted h' = isTainted h ∨ isTainted h' = true)).
Proof.
  destruct (pushHistory e lbl h) as [[|] h'] eqn:E.
  - left. exists h'. split; [done|]. by apply pushHistory_true in E as (_ & ? & _).
  - right. exists h'. split; [done|].
    by apply pushHistory_false in E as (_ & _ & _ & ?).
Qed.

(** Initialisation starts a new history: it empties both stacks and also
    resets the taint flag. It is not one of the calls of [Op]. *)
Lemma initHistory_resets (hasCtx : bool) (arg : InitArg) (h : History) :
  isTainted (initHistory hasCtx arg h) = false
  ∧ undoStack (initHistory hasCtx arg h) = []
  ∧ redoStack (initHistory hasCtx arg h) = [].
Proof. unfold initHistory. by destruct arg; frame. Qed.

(** C6. While the history is tainted, [undo()] and [redo()] return [null]
    and change nothing, so neither stack changes length; and after any
    call made on a tainted history the flag is still set, unless the call
    was a push (direct, or the one [restoreImageData] makes) that returned
    [true]. *)
Theorem taint_cleared_only_by_successful_push (h : History) :
  isTainted h = true →
  (∀ e, undo e h = (None, h) ∧ redo e h = (None, h))
  ∧ (∀ op,
       isTainted (step op h) = true
       ∨ ∃ e lbl,
           (op = Push e lbl ∨ (op = Restore e ∧ lbl = None))
           ∧ pushHistory e lbl h = (true, step op h)).
Proof.
  intros Ht. split.
  - intros e. by rewrite undo_tainted, redo_tainted.
  - intros [e lbl|e|e|n|v|e|k out]; unfold step, exec.
    + destruct (pushHistory_result e lbl h) as [(h' & E & _)|(h' & E & Hf)];
        rewrite E; cbn.
      * right. exists e, lbl. eauto.
      * left. destruct Hf; congruence.
    + left. by rewrite undo_tainted.
    + left. by rewrite redo_tainted.
    + left. cbn. by rewrite setMaxEntries_isTainted.
    + left. cbn. by rewrite setThumbHeight_isTainted.
    + cbn. unfold restoreImageData. destruct (negb (ctxReady h)); [by left|].
      destruct (pushHistory_result e None h) as [(h' & E & _)|(h' & E & Hf)];
        rewrite E; cbn.
      * right. exists e, None. eauto.
      * left. destruct Hf; congruence.
    + left. cbn. by rewrite thumbJobDone_isTainted.
Qed.

Lemma taint_cleared_only_by_successful_push_witness :
  let h := run [Push surfaceA None; Push surfaceBlocked None] fresh in
  isTainted h = true
  ∧ (∀ e, undo e h = (None, h) ∧ redo e h = (None, h))
  ∧ (∀ op,
       isTainted (step op h) = true
       ∨ ∃ e lbl,
           (op = Push e lbl ∨ (op = Restore e ∧ lbl = None))
           ∧ pushHistory e lbl h = (true, step op h)).
Proof.
  cbv zeta. split; [vm_compute; reflexivity|].
  apply (taint_cleared_only_by_successful_push
           (run [Push surfaceA None; Push surfaceBlocked None] fresh)).
  vm_compute; reflexivity.
Defined.

(** ** Security failures of the surface read *)

(** In [pushHistory] the read comes first: a refused read sets the flag,
    returns [false] and leaves both stacks as they were. *)
Lemma pushHistory_security_failure (e : Env) (lbl : option string) (h : History) :
  ctxReady h = true → canvasWidth e ≠ 0 → readSurface e = ReadSecurityError →
  ∃ h', pushHistory e lbl h = (false, h')
        ∧ isTainted h' = true
        ∧ undoStack h' = undoStack h ∧ redoStack h' = redoStack h.
Proof.
  intros Hc Hw Hr. unfold pushHistory, getImageData.
  apply N.eqb_neq in Hw. rewrite Hc, Hw, Hr. cbn.
  eexists. split; [done|]. by frame.
Qed.

(** In [undo] the read comes before the pop: a refused read sets the flag,
    returns [null] and leaves both stacks as they were. *)
Lemma undo_security_failure (e : Env) (h : History) :
  isTainted h = false → undoStack h ≠ [] → ctxReady h = true →
  readSurface e = ReadSecurityError →
  ∃ h', undo e h = (None, h')
        ∧ isTainted h' = true
        ∧ undoStack h' = undoStack h ∧ redoStack h' = redoStack h.
Proof.
  intros Ht Hu Hc Hr. unfold undo, canUndo, getImageData.
  rewrite Ht, Hc, Hr. destruct (undoStack h) as [|s u] eqn:E; [done|]. cbn.
  eexists. split; [done|]. by frame.
Qed.

(** C2, on the code. In [redo] the pop comes before the read: when the
    read is refused the call sets the flag and returns [null], but the top
    entry [next] of the redo stack has already been removed and is not put
    back, so the redo stack is one entry shorter. *)
Theorem redo_security_failure_loses_entry
    (e : Env) (h : History) (rest : list ImageData) (next : ImageData) :
  isTainted h = false → ctxReady h = true →
  redoStack h = rest ++ [next] → readSurface e = ReadSecurityError →
  ∃ h', redo e h = (None, h')
        ∧ isTainted h' = true
        ∧ undoStack h' = undoStack h
        ∧ redoStack h' = rest
        ∧ getRedoCount h = S (getRedoCount h').
Proof.
  intros Ht Hc Hs Hr. unfold redo, canRedo, pop, getImageData, getRedoCount.
  rewrite Ht, Hs, last_snoc, removelast_last, length_app, Nat.add_1_r. cbn.
  rewrite Hc, Hr. eexists. split; [done|]. by frame.
Qed.

Lemma redo_security_failure_loses_entry_witness :
  let h := run [Push surfaceA None; Push surfaceB None; Undo surfaceB] fresh in
  (isTainted h = false ∧ ctxReady h = true
   ∧ redoStack h = [] ++ [mkImageData 2 1 1 bytesB]
   ∧ readSurface surfaceBlocked = ReadSecurityError)
  ∧ ∃ h', redo surfaceBlocked h = (None, h')
          ∧ isTainted h' = true
          ∧ undoStack h' = undoStack h
          ∧ redoStack h' = []
          ∧ getRedoCount h = S (getRedoCount h').
Proof.
  cbv zeta. split; [repeat split; vm_compute; reflexivity|].
  apply (redo_security_failure_loses_entry surfaceBlocked
           (run [Push surfaceA None; Push surfaceB None; Undo surfaceB] fresh)
           [] (mkImageData 2 1 1 bytesB)); vm_compute; reflexivity.
Defined.

(** ** Undo and redo after two pushes *)

(** C1, on the code. With [protectReturned] set, after a push while the
    surface shows A and a push while it shows B, [undo()] pops the entry
    pushed last: it returns a copy of B's bytes, not of A's. The following
    [redo()] returns B's bytes (the capture taken by the undo), and the
    counts end at 2 and 0. *)
Theorem undo_after_two_pushes_returns_last
    (cw wA hA wB hB : N) (pxA pxB : list byte) (tA tB tU tR : Z) :
  cw ≠ 0 → pxA ≠ pxB →
  let A := mkEnv cw (ReadOk wA hA pxA) tA in
  let B := fun t => mkEnv cw (ReadOk wB hB pxB) t in
  let h0 := initHistory true (ArgOptions protectOptions)
              (moduleState nothingSaved nothingSaved) in
  let h2 := run [Push A None; Push (B tB) None] h0 in
  ∃ r h3 r' h4,
    undo (B tU) h2 = (Some r, h3)
    ∧ data r = pxB ∧ data r ≠ pxA
    ∧ redo (B tR) h3 = (Some r', h4)
    ∧ data r' = pxB
    ∧ getUndoCount h4 = 2%nat ∧ getRedoCount h4 = 0%nat.
Proof.
  intros Hcw Hne. destruct cw as [|p]; [done|]. cbv zeta.
  do 4 eexists. split; [vm_compute; reflexivity|].
  split; [reflexivity|]. split; [cbn; congruence|].
  split; [vm_compute; reflexivity|].
  repeat split.
Qed.

Lemma undo_after_two_pushes_returns_last_witness :
  (1 ≠ 0 ∧ bytesA ≠ bytesB)
  ∧ let h0 := initHistory true (ArgOptions protectOptions)
                (moduleState nothingSaved nothingSaved) in
    let h2 := run [Push surfaceA None; Push surfaceB None] h0 in
    ∃ r h3 r' h4,
      undo surfaceB h2 = (Some r, h3)
      ∧ data r = bytesB ∧ data r ≠ bytesA
      ∧ redo surfaceB h3 = (Some r', h4)
      ∧ data r' = bytesB
      ∧ getUndoCount h4 = 2%nat ∧ getRedoCount h4 = 0%nat.
Proof.
  split; [split; [lia | discriminate]|].
  apply (undo_after_two_pushes_returns_last 1 1 1 1 1 bytesA bytesB
           1000 2000 2000 2000); [lia | discriminate].
Defined.

(** ** The byte limit *)

Lemma updateUI_totalBytes (ex : Extra) (h : History) :
  getEstimatedBytes (_updateUI ex h) = getEstimatedBytes h.
Proof. unfold getEstimatedBytes. by autorewrite with ui. Qed.

Lemma estimate_nil : estimate [] [] = 0.
Proof. reflexivity. Qed.

(** After [_enforceLimits] on a history whose redo stack is empty the byte
    limit holds. *)
Lemma enforce_byte_bound_no_redo (h : History) (maxB : N) :
  byteCap (maxBytes h) = Some maxB → redoStack h = [] →
  estimate (undoStack (_enforceLimits h)) [] ≤ maxB.
Proof.
  intros Hcap Hr. destruct (enforce_byte_bound h maxB Hcap) as [Hle|Hnil].
  - unfold getEstimatedBytes in Hle. by rewrite enforce_redoStack, Hr in Hle.
  - rewrite Hnil, estimate_nil. lia.
Qed.

Lemma pushHistory_byte_bound
    (e : Env) (lbl : option string) (h h' : History) (maxB : N) :
  byteCap (maxBytes h) = Some maxB →
  pushHistory e lbl h = (true, h') →
  getEstimatedBytes h' ≤ maxB.
Proof.
  intros Hcap H.
  apply pushHistory_true in H as (Hr & _ & _ & _ & w & ht & px & _ & Hu).
  unfold getEstimatedBytes. rewrite Hr, Hu.
  by apply enforce_byte_bound_no_redo.
Qed.

Lemma setMaxEntries_byte_bound (n : JS.value) (h : History) (maxB : N) :
  byteCap (maxBytes h) = Some maxB → acceptedCount n = true →
  getEstimatedBytes (setMaxEntries n h) ≤ maxB
  ∨ undoStack (setMaxEntries n h) = [].
Proof.
  unfold acceptedCount, setMaxEntries. intros Hcap Hacc.
  destruct (JS.finite n) as [q|]; [|done].
  destruct (JS.le q 0); [done|].
  rewrite updateUI_totalBytes, updateUI_undoStack.
  by apply enforce_byte_bound.
Qed.

Lemma redo_byte_bound (e : Env) (h : History) (maxB : N) :
  byteCap (maxBytes h) = Some maxB →
  negb (isTainted h) && canRedo h && readsOk e h = true →
  getEstimatedBytes (redo e h).2 ≤ maxB ∨ undoStack (redo e h).2 = [].
Proof.
  intros Hcap Hrun.
  apply andb_true_iff in Hrun as [Hrun Hread].
  apply andb_true_iff in Hrun as [Ht Hcan].
  apply negb_true_iff in Ht.
  unfold redo. rewrite Ht, Hcan. cbn [orb negb].
  unfold canRedo in Hcan. rewrite Ht in Hcan. cbn in Hcan.
  unfold pop. destruct (last_is_Some (redoStack h)) as [_ Hl].
  destruct Hl as [nx Hnx].
  { intros E. rewrite E in Hcan. done. }
  rewrite Hnx. unfold readsOk, getImageData in Hread.
  unfold getImageData. cbn [ctxReady set_redoStack].
  destruct (ctxReady h); [|done].
  destruct (readSurface e) as [w ht px| |]; try done.
  cbn -[_enforceLimits _updateUI].
  match goal with
  | |- context [_enforceLimits ?X] =>
      pose proof (enforce_byte_bound X maxB Hcap) as Hb
  end.
  destruct (protectReturned (_enforceLimits _));
    cbn -[_enforceLimits _updateUI];
    rewrite updateUI_totalBytes, updateUI_undoStack; exact Hb.
Qed.

(** C4, as amended. With a byte limit configured, right after a call that
    runs the eviction policy (a successful push, an accepted
    setMaxEntries, a redo that captured the surface) the bytes held by
    both stacks are within the limit, or else the undo stack is empty and
    nothing more can be evicted; after a successful push the bytes are
    always within the limit. *)
Theorem byte_limit_after_eviction (op : Op) (h : History) (maxB : N) :
  byteCap (maxBytes h) = Some maxB →
  runsEviction op h = true →
  (totalBytes (step op h) ≤ maxB ∨ undoStack (step op h) = [])
  ∧ (if isPush op then totalBytes (step op h) ≤ maxB else True).
Proof.
  intros Hcap Hrun. unfold totalBytes.
  destruct op as [e lbl|e|e|n|v|e|k out]; cbn in Hrun; try done;
    unfold step, exec; cbn [isPush].
  - destruct (pushHistory e lbl h) as [b h'] eqn:E. cbn in Hrun. subst b.
    pose proof (pushHistory_byte_bound e lbl h h' maxB Hcap E). cbn. auto.
  - split; [|done]. pose proof (redo_byte_bound e h maxB Hcap Hrun).
    by destruct (redo e h).
  - split; [|done]. by apply setMaxEntries_byte_bound.
  - cbn. unfold restoreImageData.
    destruct (pushHistory e None h) as [b h'] eqn:E. cbn in Hrun. subst b.
    pose proof (pushHistory_byte_bound e None h h' maxB Hcap E).
    destruct (negb (ctxReady h)) eqn:Hc; cbn; [|auto].
    unfold pushHistory in E. rewrite Hc in E. done.
Qed.

Lemma byte_limit_after_eviction_witness :
  (byteCap (maxBytes twoLoads) = Some 12
   ∧ runsEviction (Push surfaceWide None) twoLoads = true)
  ∧ (totalBytes (step (Push surfaceWide None) twoLoads) ≤ 12
     ∨ undoStack (step (Push surfaceWide None) twoLoads) = [])
  ∧ (if isPush (Push surfaceWide None)
     then totalBytes (step (Push surfaceWide None) twoLoads) ≤ 12
     else True).
Proof.
  split; [split; vm_compute; reflexivity|].
  apply (byte_limit_after_eviction (Push surfaceWide None) twoLoads 12);
    vm_compute; reflexivity.
Defined.

(** C4, as stated, fails: [undo] captures the surface onto the redo stack
    and runs no eviction. With a limit of 12 bytes, after a one-pixel and a
    two-pixel image have been pushed, two undos leave 16 bytes on the redo
    stack. *)
Lemma undo_exceeds_byte_limit :
  let h := run [Undo surfaceWide; Undo surfaceWide] twoLoads in
  maxBytes h = Some 12 ∧ totalBytes twoLoads = 12 ∧ totalBytes h = 16
  ∧ ¬ totalBytes h ≤ 12.
Proof.
  cbv zeta. repeat split; try (vm_compute; reflexivity).
  vm_compute. intros H. by apply H.
Qed.

(** ** Completion of a thumbnail job *)

(** An entry of the list shown to the UI depends on the metadata of the
    snapshots on the undo stack only. *)
Lemma entries_insert_absent (h : History) (i : nat) (m : Meta) :
  i ∉ oid <$> undoStack h →
  getHistoryThumbnails (set_metaMap (<[i := m]> (metaMap h)) h)
  = getHistoryThumbnails h.
Proof.
  intros Hni. unfold getHistoryThumbnails. cbn.
  apply imap_ext. intros j s Hs. unfold entryOf.
  rewrite lookup_insert_ne; [done|].
  intros ->. apply Hni. apply list_elem_of_fmap. exists s. split; [done|].
  by eapply list_elem_of_lookup_2.
Qed.

(** C8, as amended. When a thumbnail job completes with an encoded
    preview, the preview is written into the metadata table under the
    identity of the originating snapshot and a notification is emitted,
    whether or not the snapshot is still in the store: no liveness check is
    made, and both stacks are unchanged. For a snapshot that is no longer
    on the undo stack the write is harmless: the entry list sent to the UI
    is the one from before the completion. *)
Theorem stale_thumbnail_is_written_unseen
    (k : nat) (url : string) (img : ImageData) (h : History) :
  pendingThumbs h !! k = Some img →
  let h' := thumbJobDone k (Encoded url) h in
  metaMap h' !! oid img = Some (attachThumb url (metaMap h !! oid img))
  ∧ uiLog h' =
      (if sinkIsFunction h then uiLog h ++ [payloadOf ExtraEmpty h'] else uiLog h)
  ∧ undoStack h' = undoStack h ∧ redoStack h' = redoStack h
  ∧ (oid img ∈ oid <$> undoStack h
     ∨ getHistoryThumbnails h' = getHistoryThumbnails h).
Proof.
  intros Hk. cbv zeta. unfold thumbJobDone. rewrite Hk. cbn.
  rewrite updateUI_metaMap, updateUI_undoStack, updateUI_redoStack. cbn.
  split; [apply lookup_insert_eq|].
  split.
  { unfold _updateUI. cbn. by destruct (sinkIsFunction h). }
  split; [done|]. split; [done|].
  destruct (decide (oid img ∈ oid <$> undoStack h)) as [Hin|Hni]; [by left|].
  right. unfold getHistoryThumbnails.
  rewrite updateUI_metaMap, updateUI_undoStack. cbn.
  by apply (entries_insert_absent h).
Qed.

Lemma stale_thumbnail_is_written_unseen_witness :
  let h := evictedBeforeThumb in
  let img := mkImageData 0 1 1 bytesA in
  (pendingThumbs h !! 0%nat = Some img ∧ oid img ∉ oid <$> undoStack h)
  ∧ let h' := thumbJobDone 0 (Encoded "data:image/webp;base64,AA") h in
    metaMap h' !! oid img
      = Some (attachThumb "data:image/webp;base64,AA" (metaMap h !! oid img))
    ∧ uiLog h' =
        (if sinkIsFunction h then uiLog h ++ [payloadOf ExtraEmpty h']
         else uiLog h)
    ∧ undoStack h' = undoStack h ∧ redoStack h' = redoStack h
    ∧ (oid img ∈ oid <$> undoStack h
       ∨ getHistoryThumbnails h' = getHistoryThumbnails h).
Proof.
  cbv zeta. split.
  - split; [vm_compute; reflexivity|].
    vm_compute. intros H. inversion H as [|? ? ? H']; inversion H'.
  - apply (stale_thumbnail_is_written_unseen 0 "data:image/webp;base64,AA"
             (mkImageData 0 1 1 bytesA) evictedBeforeThumb).
    vm_compute; reflexivity.
Defined.

(** C8, as stated, fails: the first snapshot (identity 0) has been evicted
    and its metadata deleted when its thumbnail job completes; the
    completion writes a metadata entry for it all the same and calls the
    UI callback once more. *)
Lemma stale_thumbnail_written_and_notified :
  let h := evictedBeforeThumb in
  let h' := thumbJobDone 0 (Encoded "data:image/webp;base64,AA") h in
  pendingThumbs h !! 0%nat = Some (mkImageData 0 1 1 bytesA)
  ∧ oid <$> undoStack h = [1%nat] ∧ redoStack h = []
  ∧ metaMap h !! 0%nat = None
  ∧ metaMap h' !! 0%nat
      = Some (mkMeta None None (Some "data:image/webp;base64,AA"))
  ∧ length (uiLog h') = S (length (uiLog h)).
Proof. cbv zeta. repeat split; vm_compute; reflexivity. Qed.

(** ** Invalid configuration values *)

Lemma setMaxEntries_rejects (v : JS.value) (h : History) :
  nonPositive v = true → setMaxEntries v h = h.
Proof.
  unfold nonPositive, setMaxEntries, JS.le.
  destruct (JS.finite v) as [q|]; [|done].
  change (inject_Z 0) with 0%Q. by intros ->.
Qed.

Lemma setThumbHeight_rejects (v : JS.value) (h : History) :
  outsideRange 48 256 v = true → setThumbHeight v h = h.
Proof.
  unfold outsideRange, setThumbHeight, JS.ge, JS.le.
  destruct (JS.finite v) as [q|]; [|done].
  intros H. apply negb_true_iff in H. by rewrite H.
Qed.

Lemma initHistory_maxEntries_default (hasCtx : bool) (o : Options) (h : History) :
  nonPositive (o_maxEntries o) = true →
  maxEntries (initHistory hasCtx (ArgOptions o) h) = DEFAULT_MAX_ENTRIES.
Proof.
  unfold initHistory. rewrite updateUI_maxEntries. cbn.
  unfold nonPositive, positiveFloorOr, JS.gt.
  destruct (o_maxEntries o) as [|[q| | |]|]; try done.
  cbn [JS.orDefault JS.finite]. change (inject_Z 0) with 0%Q.
  by intros ->.
Qed.

Lemma initHistory_thumbHeight_kept (hasCtx : bool) (o : Options) (h : History) :
  notAbove16UpTo256 (o_thumbHeight o) = true →
  thumbHeight (initHistory hasCtx (ArgOptions o) h) = thumbHeight h.
Proof.
  unfold initHistory. rewrite updateUI_thumbHeight. cbn.
  unfold notAbove16UpTo256, initThumbHeight, JS.gt, JS.le.
  destruct (JS.finite (o_thumbHeight o)) as [q|]; [|done].
  change (inject_Z 16) with 16%Q. change (inject_Z 256) with 256%Q.
  intros H. apply orb_true_iff in H as [->|H]; [done|].
  apply negb_true_iff in H. rewrite H. by rewrite andb_false_r.
Qed.

(** C7, as amended. The runtime setters reject an invalid value and keep
    the whole state, so the previous value stays in force:
    [setMaxEntries] for a maxEntries that is not a positive number,
    [setThumbHeight] for a height outside [48, 256]. At initialisation a
    maxEntries that is not a positive number is rejected too, but the
    default of 50 takes its place, not the previous value; a thumbnail
    height that is not a number, is at most 16 or is above 256 is rejected
    and the previous height kept. *)
Theorem invalid_config_rejected :
  (∀ v h, nonPositive v = true → setMaxEntries v h = h)
  ∧ (∀ v h, outsideRange 48 256 v = true → setThumbHeight v h = h)
  ∧ (∀ hasCtx o h,
       nonPositive (o_maxEntries o) = true →
       maxEntries (initHistory hasCtx (ArgOptions o) h) = DEFAULT_MAX_ENTRIES)
  ∧ (∀ hasCtx o h,
       notAbove16UpTo256 (o_thumbHeight o) = true →
       thumbHeight (initHistory hasCtx (ArgOptions o) h) = thumbHeight h).
Proof.
  split; [exact setMaxEntries_rejects|].
  split; [exact setThumbHeight_rejects|].
  split; [exact initHistory_maxEntries_default|].
  exact initHistory_thumbHeight_kept.
Qed.

Lemma invalid_config_rejected_witness :
  let o := mkOptions true (jsInt (-5)) JS.Undefined false true (jsInt 300) in
  (nonPositive (jsInt 0) = true
   ∧ outsideRange 48 256 (jsInt 20) = true
   ∧ nonPositive (o_maxEntries o) = true
   ∧ notAbove16UpTo256 (o_thumbHeight o) = true)
  ∧ setMaxEntries (jsInt 0) twoLoads = twoLoads
  ∧ setThumbHeight (jsInt 20) twoLoads = twoLoads
  ∧ maxEntries (initHistory true (ArgOptions o) twoLoads) = DEFAULT_MAX_ENTRIES
  ∧ thumbHeight (initHistory true (ArgOptions o) twoLoads) = thumbHeight twoLoads.
Proof.
  cbv zeta. split; [repeat split|].
  destruct invalid_config_rejected as (H1 & H2 & H3 & H4).
  split; [apply H1; reflexivity|].
  split; [apply H2; reflexivity|].
  split; [apply H3; reflexivity|].
  apply H4; reflexivity.
Defined.

(** C7, as stated, fails at initialisation: with 10 in force as
    maxEntries, [initHistory] given the invalid value -5 does not keep 10
    but installs the default 50. *)
Lemma init_invalid_maxEntries_not_retained :
  let h := setMaxEntries (jsInt 10) fresh in
  let o := limitOptions (jsInt (-5)) JS.Undefined in
  nonPositive (o_maxEntries o) = true
  ∧ maxEntries h = 10
  ∧ maxEntries (initHistory true (ArgOptions o) h) = 50
  ∧ maxEntries (initHistory true (ArgOptions o) h) ≠ maxEntries h.
Proof. cbv zeta. repeat split; vm_compute; congruence. Qed.

(** ** Worked cases *)

(** Lowering the limit below the current length evicts at once, oldest
    first: of the snapshots 0 and 1 only 1 remains. *)
Example setMaxEntries_lowering_evicts :
  getUndoCount twoLoads = 2%nat
  ∧ oid <$> undoStack (setMaxEntries (jsInt 1) twoLoads) = [1%nat]
  ∧ metaMap (setMaxEntries (jsInt 1) twoLoads) !! 0%nat = None.
Proof. repeat split; vm_compute; reflexivity. Qed.

(** A positive fraction passes the check of [setMaxEntries] and its floor,
    0, becomes the limit; the undo stack is emptied. *)
Example setMaxEntries_fraction :
  let h := setMaxEntries (JS.Num (JS.Fin (1 # 2))) twoLoads in
  maxEntries h = 0 ∧ undoStack h = [].
Proof. split; vm_compute; reflexivity. Qed.

(** [initHistory] accepts a thumbnail height of 20, which [setThumbHeight]
    refuses. *)
Example thumbHeight_20_init_and_setter :
  let o := mkOptions true JS.Undefined JS.Undefined false true (jsInt 20) in
  thumbHeight (initHistory true (ArgOptions o) fresh) = JS.Fin (inject_Z 20)
  ∧ setThumbHeight (jsInt 20) fresh = fresh.
Proof. split; vm_compute; reflexivity. Qed.

(** Sixty pushes under the default limit of 50 leave the 50 newest
    snapshots, identities 10 to 59. *)
Example sixty_pushes_keep_fifty :
  let h := run (replicate 60 (Push surfaceA None)) fresh in
  getUndoCount h = 50%nat
  ∧ length (getHistoryThumbnails h) = 50%nat
  ∧ oid <$> undoStack h = seq 10 50.
Proof. repeat split; vm_compute; reflexivity. Qed.

(** * Further properties of the history module *)

Lemma updateUI_nextId (ex : Extra) (h : History) :
  nextId (_updateUI ex h) = nextId h.
Proof. unfold _updateUI. by destruct (sinkIsFunction h). Qed.

Lemma updateUI_ctxReady (ex : Extra) (h : History) :
  ctxReady (_updateUI ex h) = ctxReady h.
Proof. unfold _updateUI. by destruct (sinkIsFunction h). Qed.

Lemma updateUI_pendingThumbs (ex : Extra) (h : History) :
  pendingThumbs (_updateUI ex h) = pendingThumbs h.
Proof. unfold _updateUI. by destruct (sinkIsFunction h). Qed.

Lemma enforce_nextId (h : History) : nextId (_enforceLimits h) = nextId h.
Proof.
  unfold _enforceLimits. destruct (evictByCount _ _ _) as [u1 m1].
  destruct (byteCap _); [destruct (evictByBytes _ _ _ _)|]; done.
Qed.

Lemma enforce_ctxReady (h : History) : ctxReady (_enforceLimits h) = ctxReady h.
Proof.
  unfold _enforceLimits. destruct (evictByCount _ _ _) as [u1 m1].
  destruct (byteCap _); [destruct (evictByBytes _ _ _ _)|]; done.
Qed.

#[local] Hint Rewrite updateUI_nextId updateUI_ctxReady updateUI_pendingThumbs
  enforce_nextId enforce_ctxReady : ui.

(** ** What undo does, case by case *)

(** [undo] on a clean history whose undo stack ends in [p], by the outcome
    of the surface read. *)
Lemma undo_cases (e : Env) (h : History) (rest : list ImageData) (p : ImageData) :
  isTainted h = false → undoStack h = rest ++ [p] →
  match getImageData e h with
  | ReadOk w ht px =>
      (undo e h).1 = Some (handedBack (protectReturned h) (S (nextId h)) p)
      ∧ undoStack (undo e h).2 = rest
      ∧ redoStack (undo e h).2 = redoStack h ++ [mkImageData (nextId h) w ht px]
      ∧ metaMap (undo e h).2 =
          <[nextId h := mkMeta (Some (now e)) (Some "redo-base") None]> (metaMap h)
      ∧ nextId (undo e h).2 =
          (if protectReturned h then S (S (nextId h)) else S (nextId h))
      ∧ isTainted (undo e h).2 = false
  | ReadSecurityError =>
      (undo e h).1 = None
      ∧ undoStack (undo e h).2 = undoStack h
      ∧ redoStack (undo e h).2 = redoStack h
      ∧ metaMap (undo e h).2 = metaMap h
      ∧ nextId (undo e h).2 = nextId h
      ∧ isTainted (undo e h).2 = true
  | ReadOtherError =>
      (undo e h).1 = Some (handedBack (protectReturned h) (nextId h) p)
      ∧ undoStack (undo e h).2 = rest
      ∧ redoStack (undo e h).2 = redoStack h
      ∧ metaMap (undo e h).2 = metaMap h
      ∧ nextId (undo e h).2 =
          (if protectReturned h then S (nextId h) else nextId h)
      ∧ isTainted (undo e h).2 = false
  end.
Proof.
  intros Ht Hu. unfold undo, canUndo, pop.
  rewrite Ht, Hu, length_app, Nat.add_1_r. cbn [negb orb andb Nat.ltb Nat.leb].
  destruct (getImageData e h) as [w ht px| |]; cbn.
  - rewrite Hu, last_snoc, removelast_last.
    destruct (protectReturned h) eqn:Hp; frame; rewrite ?Hp; by frame.
  - frame. by rewrite Hu.
  - rewrite Hu, last_snoc, removelast_last.
    destruct (protectReturned h) eqn:Hp; frame; rewrite ?Hp; by frame.
Qed.

(** [redo] on a clean history whose redo stack ends in [nx]. *)
Lemma redo_cases (e : Env) (h : History) (rest : list ImageData) (nx : ImageData) :
  isTainted h = false → redoStack h = rest ++ [nx] →
  match getImageData e h with
  | ReadOk w ht px =>
      let captured :=
        _enforceLimits
          (setMeta (mkImageData (nextId h) w ht px) (now e) "undo-base"
             (set_undoStack (undoStack h ++ [mkImageData (nextId h) w ht px])
                (set_nextId (S (nextId h)) (set_redoStack rest h)))) in
      (redo e h).1 = Some (handedBack (protectReturned h) (S (nextId h)) nx)
      ∧ undoStack (redo e h).2 = undoStack captured
      ∧ redoStack (redo e h).2 = rest
      ∧ metaMap (redo e h).2 = metaMap captured
      ∧ nextId (redo e h).2 =
          (if protectReturned h then S (S (nextId h)) else S (nextId h))
      ∧ isTainted (redo e h).2 = false
  | ReadSecurityError =>
      (redo e h).1 = None
      ∧ undoStack (redo e h).2 = undoStack h
      ∧ redoStack (redo e h).2 = rest
      ∧ metaMap (redo e h).2 = metaMap h
      ∧ nextId (redo e h).2 = nextId h
      ∧ isTainted (redo e h).2 = true
  | ReadOtherError =>
      (redo e h).1 = Some (handedBack (protectReturned h) (nextId h) nx)
      ∧ undoStack (redo e h).2 = undoStack h
      ∧ redoStack (redo e h).2 = rest
      ∧ metaMap (redo e h).2 = metaMap h
      ∧ nextId (redo e h).2 =
          (if protectReturned h then S (nextId h) else nextId h)
      ∧ isTainted (redo e h).2 = false
  end.
Proof.
  intros Ht Hr. unfold redo, canRedo, pop.
  rewrite Ht, Hr, length_app, Nat.add_1_r, last_snoc, removelast_last.
  cbn [negb orb andb Nat.ltb Nat.leb].
  change (getImageData e (set_redoStack rest h)) with (getImageData e h).
  destruct (getImageData e h) as [w ht px| |]; cbn.
  - destruct (protectReturned h) eqn:Hp; frame; rewrite ?Hp; by frame.
  - by frame.
  - destruct (protectReturned h) eqn:Hp; frame; rewrite ?Hp; by frame.
Qed.

Lemma nonempty_snoc {A} (l : list A) :
  l ≠ [] → ∃ rest x, l = rest ++ [x].
Proof.
  intros Hne. destruct (last l) as [x|] eqn:E.
  - apply last_Some in E as [rest ->]. eauto.
  - by apply last_None in E.
Qed.

Lemma canUndo_true (h : History) :
  canUndo h = true → isTainted h = false ∧ ∃ rest p, undoStack h = rest ++ [p].
Proof.
  unfold canUndo. intros Hc. apply andb_true_iff in Hc as [Ht Hne].
  apply negb_true_iff in Ht. split; [done|]. apply nonempty_snoc.
  intros E. by rewrite E in Hne.
Qed.

Lemma canRedo_true (h : History) :
  canRedo h = true → isTainted h = false ∧ ∃ rest p, redoStack h = rest ++ [p].
Proof.
  unfold canRedo. intros Hc. apply andb_true_iff in Hc as [Ht Hne].
  apply negb_true_iff in Ht. split; [done|]. apply nonempty_snoc.
  intros E. by rewrite E in Hne.
Qed.

Lemma undo_refused (e : Env) (h : History) :
  canUndo h = false → undo e h = (None, h).
Proof.
  unfold undo. intros ->. by rewrite orb_true_r.
Qed.

Lemma redo_refused (e : Env) (h : History) :
  canRedo h = false → redo e h = (None, h).
Proof.
  unfold redo. intros ->. by rewrite orb_true_r.
Qed.

(** X1. [undo()] returns [null] exactly when [canUndo()] is false or the
    surface read is refused for security reasons, and [redo()] exactly when
    [canRedo()] is false or the read is refused; when the query is false
    the call changes nothing at all. *)
Theorem null_exactly_when_refused (e : Env) (h : History) :
  ((undo e h).1 = None ↔ canUndo h = false ∨ getImageData e h = ReadSecurityError)
  ∧ ((redo e h).1 = None ↔ canRedo h = false ∨ getImageData e h = ReadSecurityError)
  ∧ (canUndo h = true ∨ undo e h = (None, h))
  ∧ (canRedo h = true ∨ redo e h = (None, h)).
Proof.
  split; [|split; [|split]].
  - destruct (canUndo h) eqn:Hc.
    + destruct (canUndo_true h Hc) as (Ht & rest & p & Hu).
      pose proof (undo_cases e h rest p Ht Hu) as H.
      destruct (getImageData e h); destruct H as (Hr & _); rewrite Hr;
        (split; [intros ?; try done; by right | by intros [?|?]]).
    + rewrite undo_refused by done. split; auto.
  - destruct (canRedo h) eqn:Hc.
    + destruct (canRedo_true h Hc) as (Ht & rest & p & Hu).
      pose proof (redo_cases e h rest p Ht Hu) as H.
      destruct (getImageData e h); destruct H as (Hr & _); rewrite Hr;
        (split; [intros ?; try done; by right | by intros [?|?]]).
    + rewrite redo_refused by done. split; auto.
  - destruct (canUndo h) eqn:Hc; [by left|]. right. by apply undo_refused.
  - destruct (canRedo h) eqn:Hc; [by left|]. right. by apply redo_refused.
Qed.

(** X2. When the surface read inside [undo()] fails with an error that is
    not of the security class, the call still pops the newest undo entry
    and returns its pixels, but nothing is captured: the redo stack and
    the taint flag stay as they were, so the state this undo leaves behind
    cannot be reached again by [redo()]. *)
Theorem undo_unreadable_surface_pops_without_capture
    (e : Env) (h : History) (rest : list ImageData) (p : ImageData) :
  isTainted h = false →
  undoStack h = rest ++ [p] →
  getImageData e h = ReadOtherError →
  pixelsOf <$> (undo e h).1 = Some (pixelsOf p)
  ∧ undoStack (undo e h).2 = rest
  ∧ redoStack (undo e h).2 = redoStack h
  ∧ isTainted (undo e h).2 = false.
Proof.
  intros Ht Hs Hread.
  pose proof (undo_cases e h rest p Ht Hs) as H. rewrite Hread in H.
  destruct H as (Hr & Hu & Hre & _ & _ & Hta). rewrite Hr.
  repeat split; try done. cbn. by destruct (protectReturned h).
Qed.

Lemma undo_unreadable_surface_pops_without_capture_witness :
  (isTainted twoLoads = false
   ∧ undoStack twoLoads
       = [mkImageData 0 1 1 bytesA] ++ [mkImageData 1 2 1 (bytesA ++ bytesB)]
   ∧ getImageData surfaceBroken twoLoads = ReadOtherError)
  ∧ pixelsOf <$> (undo surfaceBroken twoLoads).1
      = Some (pixelsOf (mkImageData 1 2 1 (bytesA ++ bytesB)))
  ∧ undoStack (undo surfaceBroken twoLoads).2 = [mkImageData 0 1 1 bytesA]
  ∧ redoStack (undo surfaceBroken twoLoads).2 = redoStack twoLoads
  ∧ isTainted (undo surfaceBroken twoLoads).2 = false.
Proof.
  split; [repeat split; vm_compute; reflexivity|].
  apply (undo_unreadable_surface_pops_without_capture surfaceBroken twoLoads
           [mkImageData 0 1 1 bytesA] (mkImageData 1 2 1 (bytesA ++ bytesB)));
    vm_compute; reflexivity.
Defined.

(** X3. When the surface read inside [redo()] fails with an error that is
    not of the security class, the call still pops the newest redo entry
    and returns its pixels; the undo stack receives no capture of the
    surface and stays as it was, and the taint flag is not set. *)
Theorem redo_unreadable_surface_pops_without_capture
    (e : Env) (h : History) (rest : list ImageData) (p : ImageData) :
  isTainted h = false →
  redoStack h = rest ++ [p] →
  getImageData e h = ReadOtherError →
  pixelsOf <$> (redo e h).1 = Some (pixelsOf p)
  ∧ redoStack (redo e h).2 = rest
  ∧ undoStack (redo e h).2 = undoStack h
  ∧ isTainted (redo e h).2 = false.
Proof.
  intros Ht Hs Hread.
  pose proof (redo_cases e h rest p Ht Hs) as H. rewrite Hread in H.
  destruct H as (Hr & Hu & Hre & _ & _ & Hta). rewrite Hr.
  repeat split; try done. cbn. by destruct (protectReturned h).
Qed.

Lemma redo_unreadable_surface_pops_without_capture_witness :
  let h := (undo surfaceWide twoLoads).2 in
  (isTainted h = false
   ∧ redoStack h = [] ++ [mkImageData 2 2 1 (bytesA ++ bytesB)]
   ∧ getImageData surfaceBroken h = ReadOtherError)
  ∧ pixelsOf <$> (redo surfaceBroken h).1
      = Some (pixelsOf (mkImageData 2 2 1 (bytesA ++ bytesB)))
  ∧ redoStack (redo surfaceBroken h).2 = []
  ∧ undoStack (redo surfaceBroken h).2 = undoStack h
  ∧ isTainted (redo surfaceBroken h).2 = false.
Proof.
  cbv zeta. split; [repeat split; vm_compute; reflexivity|].
  apply (redo_unreadable_surface_pops_without_capture surfaceBroken
           (undo surfaceWide twoLoads).2
           [] (mkImageData 2 2 1 (bytesA ++ bytesB)));
    vm_compute; reflexivity.
Defined.

(** ** What push does, case by case *)

Lemma push_cases (e : Env) (lbl : option string) (h : History) :
  if negb (ctxReady h) || (canvasWidth e =? 0)
  then pushHistory e lbl h = (false, h)
  else
    match getImageData e h with
    | ReadOk w ht px =>
        let snap := mkImageData (nextId h) w ht px in
        let grown :=
          set_redoStack []
            (setMeta snap (now e) (strOrEmpty lbl)
               (set_undoStack (undoStack h ++ [snap])
                  (set_nextId (S (nextId h)) h))) in
        (pushHistory e lbl h).1 = true
        ∧ undoStack (pushHistory e lbl h).2 = undoStack (_enforceLimits grown)
        ∧ redoStack (pushHistory e lbl h).2 = []
        ∧ metaMap (pushHistory e lbl h).2 = metaMap (_enforceLimits grown)
        ∧ nextId (pushHistory e lbl h).2 = S (nextId h)
        ∧ isTainted (pushHistory e lbl h).2 = false
        ∧ pendingThumbs (pushHistory e lbl h).2 =
            (if thumbEnabled h then pendingThumbs h ++ [snap]
             else pendingThumbs h)
    | ReadSecurityError =>
        (pushHistory e lbl h).1 = false
        ∧ undoStack (pushHistory e lbl h).2 = undoStack h
        ∧ redoStack (pushHistory e lbl h).2 = redoStack h
        ∧ metaMap (pushHistory e lbl h).2 = metaMap h
        ∧ nextId (pushHistory e lbl h).2 = nextId h
        ∧ isTainted (pushHistory e lbl h).2 = true
        ∧ pendingThumbs (pushHistory e lbl h).2 = pendingThumbs h
    | ReadOtherError => pushHistory e lbl h = (false, h)
    end.
Proof.
  unfold pushHistory.
  destruct (negb (ctxReady h) || (canvasWidth e =? 0)); [done|].
  destruct (getImageData e h) as [w ht px| |]; [|by frame|done].
  cbn -[_enforceLimits _updateUI].
  match goal with |- context [_enforceLimits ?X] => set (g := _enforceLimits X) end.
  assert (thumbEnabled g = thumbEnabled h) as Hth
    by (subst g; by rewrite enforce_thumbEnabled).
  assert (isTainted g = isTainted h) as Hta
    by (subst g; by rewrite enforce_isTainted).
  assert (nextId g = S (nextId h)) as Hn
    by (subst g; by rewrite enforce_nextId).
  assert (pendingThumbs g = pendingThumbs h) as Hp.
  { subst g. unfold _enforceLimits. destruct (evictByCount _ _ _) as [u1 m1].
    destruct (byteCap _); [destruct (evictByBytes _ _ _ _)|]; done. }
  assert (redoStack g = []) as Hre
    by (subst g; by rewrite enforce_redoStack).
  clearbody g.
  destruct (isTainted g) eqn:Hg; frame; rewrite Hth; destruct (thumbEnabled h);
    frame; by rewrite ?Hn, ?Hp, ?Hre.
Qed.

(** ** Identities and metadata of the stored snapshots *)

Lemma keyed_shrink (u r u' r' : list ImageData) (mm : gmap nat Meta) (n : nat) :
  keyed u r mm n → u' `sublist_of` u → r' `sublist_of` r → keyed u' r' mm n.
Proof.
  intros [Hnd Hall] Hu Hr.
  assert (u' ++ r' `sublist_of` u ++ r) as Hs by by apply sublist_app.
  split.
  - eapply sublist_NoDup; [exact Hnd|]. by apply fmap_sublist.
  - intros s Hin. apply Hall. by eapply elem_of_sublist.
Qed.

Lemma keyed_bump (u r : list ImageData) (mm : gmap nat Meta) (n n' : nat) :
  keyed u r mm n → (n ≤ n')%nat → keyed u r mm n'.
Proof.
  intros [Hnd Hall] Hle. split; [done|].
  intros s Hin. destruct (Hall s Hin). split; [lia|done].
Qed.

Lemma keyed_insert (u r : list ImageData) (mm : gmap nat Meta) (n i : nat) (m : Meta) :
  keyed u r mm n → keyed u r (<[i := m]> mm) n.
Proof.
  intros [Hnd Hall]. split; [done|].
  intros s Hin. destruct (Hall s Hin) as [Hlt Hsome]. split; [done|].
  rewrite lookup_insert. case_decide; [by eexists|done].
Qed.

Lemma keyed_fresh (u r : list ImageData) (mm : gmap nat Meta) (n : nat) :
  keyed u r mm n → n ∉ oid <$> (u ++ r).
Proof.
  intros [_ Hall] Hin. apply list_elem_of_fmap in Hin as (s & Hs & Hin).
  destruct (Hall s Hin). lia.
Qed.

Lemma keyed_push_undo (u r : list ImageData) (mm : gmap nat Meta) (n : nat)
    (w ht : N) (px : list byte) (m : Meta) :
  keyed u r mm n →
  keyed (u ++ [mkImageData n w ht px]) r (<[n := m]> mm) (S n).
Proof.
  intros Hk. pose proof (keyed_fresh _ _ _ _ Hk) as Hfresh.
  destruct Hk as [Hnd Hall]. split.
  - rewrite <- app_assoc, fmap_app. cbn. rewrite fmap_app in Hnd, Hfresh.
    apply NoDup_app in Hnd as (Hu & Hur & Hr).
    apply NoDup_app. split; [done|]. split.
    + intros x Hx. apply not_elem_of_cons. split; [|by apply Hur].
      intros ->. apply Hfresh. apply elem_of_app. by left.
    + apply NoDup_cons. split; [|done].
      intros Hx. apply Hfresh. apply elem_of_app. by right.
  - intros s Hin. rewrite <- app_assoc in Hin.
    apply elem_of_app in Hin as [Hin|Hin];
      [|apply elem_of_cons in Hin as [->|Hin]].
    + destruct (Hall s) as [Hlt Hsome]; [apply elem_of_app; by left|].
      split; [lia|]. rewrite lookup_insert. case_decide; [by eexists|done].
    + cbn. split; [lia|]. rewrite lookup_insert_eq. by eexists.
    + destruct (Hall s) as [Hlt Hsome]; [apply elem_of_app; by right|].
      split; [lia|]. rewrite lookup_insert. case_decide; [by eexists|done].
Qed.

Lemma keyed_push_redo (u r : list ImageData) (mm : gmap nat Meta) (n : nat)
    (w ht : N) (px : list byte) (m : Meta) :
  keyed u r mm n →
  keyed u (r ++ [mkImageData n w ht px]) (<[n := m]> mm) (S n).
Proof.
  intros Hk. pose proof (keyed_fresh _ _ _ _ Hk) as Hfresh.
  destruct Hk as [Hnd Hall]. split.
  - rewrite app_assoc, fmap_app. cbn. apply NoDup_app. split; [done|]. split.
    + intros x Hx. apply not_elem_of_cons. split; [|apply not_elem_of_nil].
      by intros ->.
    + apply NoDup_singleton.
  - intros s Hin. rewrite app_assoc in Hin.
    apply elem_of_app in Hin as [Hin|Hin].
    + destruct (Hall s Hin) as [Hlt Hsome].
      split; [lia|]. rewrite lookup_insert. case_decide; [by eexists|done].
    + apply list_elem_of_singleton in Hin as ->. cbn.
      split; [lia|]. rewrite lookup_insert_eq. by eexists.
Qed.

Lemma keyed_evict (u r : list ImageData) (mm : gmap nat Meta) (n k : nat) :
  keyed u r mm n → keyed (drop k u) r (dropMeta (take k u) mm) n.
Proof.
  intros [Hnd Hall]. split.
  - eapply sublist_NoDup; [exact Hnd|]. apply fmap_sublist.
    apply sublist_app; [apply sublist_drop|done].
  - intros s Hin.
    assert (s ∈ u ++ r) as Hin'.
    { eapply elem_of_sublist; [exact Hin|].
      apply sublist_app; [apply sublist_drop|done]. }
    destruct (Hall s Hin') as [Hlt Hsome]. split; [done|].
    rewrite dropMeta_kept; [done|].
    rewrite <- (take_drop k u), <- app_assoc, fmap_app in Hnd.
    apply NoDup_app in Hnd as (_ & Hdisj & _).
    intros Hev. apply (Hdisj _ Hev). apply list_elem_of_fmap.
    exists s. split; [done|]. exact Hin.
Qed.

Lemma wellKeyed_enforce (h : History) :
  wellKeyed h → wellKeyed (_enforceLimits h).
Proof.
  unfold wellKeyed. intros Hk.
  destruct (enforce_prefix h) as (k & -> & ->).
  rewrite enforce_redoStack, enforce_nextId. by apply keyed_evict.
Qed.

Lemma removelast_sublist {A} (l : list A) : removelast l `sublist_of` l.
Proof.
  destruct (decide (l = [])) as [->|Hne]; [done|].
  destruct (nonempty_snoc l Hne) as (rest & x & ->).
  rewrite removelast_last. by apply sublist_inserts_r.
Qed.

Lemma wellKeyed_same (h h' : History) :
  undoStack h' = undoStack h → redoStack h' = redoStack h →
  metaMap h' = metaMap h → (nextId h ≤ nextId h')%nat →
  wellKeyed h → wellKeyed h'.
Proof.
  unfold wellKeyed. intros -> -> -> Hle Hk. by eapply keyed_bump.
Qed.

Lemma pushHistory_wellKeyed (e : Env) (lbl : option string) (h : History) :
  wellKeyed h → wellKeyed (pushHistory e lbl h).2.
Proof.
  intros Hk. pose proof (push_cases e lbl h) as H.
  destruct (negb (ctxReady h) || (canvasWidth e =? 0)); [by rewrite H|].
  destruct (getImageData e h) as [w ht px| |]; [| |by rewrite H].
  - cbv zeta in H. destruct H as (_ & Hu & Hr & Hm & Hn & _).
    match type of Hu with _ = undoStack (_enforceLimits ?X) =>
      assert (wellKeyed (_enforceLimits X)) as Hg end.
    { apply wellKeyed_enforce. unfold wellKeyed. cbn.
      apply keyed_push_undo. eapply keyed_shrink; [exact Hk|done|].
      apply sublist_nil_l. }
    unfold wellKeyed in *. rewrite Hu, Hr, Hm, Hn.
    by rewrite enforce_redoStack, enforce_nextId in Hg.
  - destruct H as (_ & Hu & Hr & Hm & Hn & _).
    eapply wellKeyed_same; [exact Hu|exact Hr|exact Hm|lia|done].
Qed.

Lemma undo_wellKeyed (e : Env) (h : History) :
  wellKeyed h → wellKeyed (undo e h).2.
Proof.
  intros Hk. destruct (canUndo h) eqn:Hc; [|by rewrite undo_refused].
  destruct (canUndo_true h Hc) as (Ht & rest & p & Hs).
  pose proof (undo_cases e h rest p Ht Hs) as H.
  unfold wellKeyed in *. rewrite Hs in Hk.
  assert (keyed rest (redoStack h) (metaMap h) (nextId h)) as Hk'.
  { eapply keyed_shrink; [exact Hk| |done]. by apply sublist_inserts_r. }
  destruct (getImageData e h) as [w ht px| |];
    destruct H as (_ & Hu & Hr & Hm & Hn & _); rewrite Hu, Hr, Hm, Hn.
  - eapply keyed_bump; [by apply keyed_push_redo|].
    destruct (protectReturned h); lia.
  - by rewrite Hs.
  - eapply keyed_bump; [exact Hk'|]. destruct (protectReturned h); lia.
Qed.

Lemma redo_wellKeyed (e : Env) (h : History) :
  wellKeyed h → wellKeyed (redo e h).2.
Proof.
  intros Hk. destruct (canRedo h) eqn:Hc; [|by rewrite redo_refused].
  destruct (canRedo_true h Hc) as (Ht & rest & p & Hs).
  pose proof (redo_cases e h rest p Ht Hs) as H.
  unfold wellKeyed in *. rewrite Hs in Hk.
  assert (keyed (undoStack h) rest (metaMap h) (nextId h)) as Hk'.
  { eapply keyed_shrink; [exact Hk|done|]. by apply sublist_inserts_r. }
  destruct (getImageData e h) as [w ht px| |].
  - cbv zeta in H. destruct H as (_ & Hu & Hr & Hm & Hn & _).
    match type of Hu with _ = undoStack (_enforceLimits ?X) =>
      assert (wellKeyed (_enforceLimits X)) as Hg end.
    { apply wellKeyed_enforce. unfold wellKeyed. cbn.
      by apply keyed_push_undo. }
    unfold wellKeyed in Hg. rewrite enforce_redoStack, enforce_nextId in Hg.
    cbn in Hg. rewrite Hu, Hr, Hm, Hn.
    eapply keyed_bump; [exact Hg|]. destruct (protectReturned h); lia.
  - destruct H as (_ & Hu & Hr & Hm & Hn & _). by rewrite Hu, Hr, Hm, Hn.
  - destruct H as (_ & Hu & Hr & Hm & Hn & _). rewrite Hu, Hr, Hm, Hn.
    eapply keyed_bump; [exact Hk'|]. destruct (protectReturned h); lia.
Qed.

Lemma setMaxEntries_wellKeyed (n : JS.value) (h : History) :
  wellKeyed h → wellKeyed (setMaxEntries n h).
Proof.
  intros Hk. unfold setMaxEntries.
  destruct (JS.finite n) as [q|]; [|done]. destruct (JS.le q 0); [done|].
  match goal with |- context [_enforceLimits ?X] =>
    assert (wellKeyed (_enforceLimits X)) as Hg
      by (apply wellKeyed_enforce; exact Hk) end.
  unfold wellKeyed in *. by autorewrite with ui in *.
Qed.

Lemma setThumbHeight_wellKeyed (v : JS.value) (h : History) :
  wellKeyed h → wellKeyed (setThumbHeight v h).
Proof.
  intros Hk. unfold setThumbHeight.
  destruct (JS.finite v) as [q|]; [|done].
  destruct (JS.ge q 48 && JS.le q 256); [|done].
  unfold wellKeyed in *. by autorewrite with ui.
Qed.

Lemma thumbJobDone_wellKeyed (k : nat) (out : ThumbOutcome) (h : History) :
  wellKeyed h → wellKeyed (thumbJobDone k out h).
Proof.
  intros Hk. unfold thumbJobDone.
  destruct (pendingThumbs h !! k) as [img|]; [|done].
  destruct out as [url|]; [|done].
  unfold wellKeyed in *. autorewrite with ui. cbn. by apply keyed_insert.
Qed.

Lemma step_wellKeyed (op : Op) (h : History) :
  wellKeyed h → wellKeyed (step op h).
Proof.
  intros Hk. destruct op as [e lbl|e|e|n|v|e|k out]; unfold step, exec.
  - pose proof (pushHistory_wellKeyed e lbl h Hk).
    by destruct (pushHistory e lbl h).
  - pose proof (undo_wellKeyed e h Hk). by destruct (undo e h).
  - pose proof (redo_wellKeyed e h Hk). by destruct (redo e h).
  - by apply setMaxEntries_wellKeyed.
  - by apply setThumbHeight_wellKeyed.
  - cbn. unfold restoreImageData. destruct (negb (ctxReady h)); [done|].
    by apply pushHistory_wellKeyed.
  - by apply thumbJobDone_wellKeyed.
Qed.

Lemma run_wellKeyed (ops : list Op) (h : History) :
  wellKeyed h → wellKeyed (run ops h).
Proof.
  revert h. induction ops as [|op ops IH]; intros h Hk; [done|].
  cbn. by apply IH, step_wellKeyed.
Qed.

Lemma initHistory_wellKeyed (hasCtx : bool) (arg : InitArg) (h : History) :
  wellKeyed (initHistory hasCtx arg h).
Proof.
  unfold wellKeyed, initHistory. autorewrite with ui.
  destruct arg; cbn; (split; [apply NoDup_nil_2|]); intros s Hs;
    by apply elem_of_nil in Hs.
Qed.

(** X4. In every session, after every call, the snapshots held on the undo
    and redo stacks have pairwise distinct identities, and each of them has
    an entry in the metadata table: eviction never removes the metadata of
    a snapshot that stays. *)
Theorem stored_snapshots_distinct_with_metadata
    (savedMaxEntries savedThumbHeight : JS.number) (hasCtx : bool)
    (arg : InitArg) (ops : list Op) :
  let h := session savedMaxEntries savedThumbHeight hasCtx arg ops in
  NoDup (oid <$> stored h)
  ∧ ∀ s, s ∈ stored h → is_Some (metaMap h !! oid s).
Proof.
  cbv zeta. unfold session.
  pose proof (run_wellKeyed ops _
    (initHistory_wellKeyed hasCtx arg
       (moduleState savedMaxEntries savedThumbHeight))) as [Hnd Hall].
  split; [exact Hnd|]. intros s Hs. by destruct (Hall s Hs).
Qed.

Lemma keyed_popped_undo (u r : list ImageData) (p : ImageData)
    (mm : gmap nat Meta) (n : nat) :
  keyed (u ++ [p]) r mm n →
  (oid p < n)%nat ∧ ∀ s, s ∈ u ++ r → (oid s < n)%nat ∧ oid s ≠ oid p.
Proof.
  intros [Hnd Hall]. split.
  - apply Hall. apply elem_of_app. left. apply elem_of_app. right.
    by apply list_elem_of_singleton.
  - intros s Hin. split.
    + apply Hall. rewrite <- app_assoc.
      apply elem_of_app in Hin as [?|?]; apply elem_of_app; [by left|right].
      by apply elem_of_cons; right.
    + rewrite <- app_assoc, fmap_app in Hnd. cbn in Hnd.
      apply NoDup_app in Hnd as (_ & Hdisj & Hnd).
      apply NoDup_cons in Hnd as [Hp _]. intros Heq.
      apply elem_of_app in Hin as [Hin|Hin].
      * apply (Hdisj (oid p)).
        -- apply list_elem_of_fmap. exists s. by split.
        -- by apply elem_of_cons; left.
      * apply Hp. apply list_elem_of_fmap. exists s. by split.
Qed.

Lemma keyed_popped_redo (u r : list ImageData) (p : ImageData)
    (mm : gmap nat Meta) (n : nat) :
  keyed u (r ++ [p]) mm n →
  (oid p < n)%nat ∧ ∀ s, s ∈ u ++ r → (oid s < n)%nat ∧ oid s ≠ oid p.
Proof.
  intros [Hnd Hall]. rewrite app_assoc in Hnd, Hall. split.
  - apply Hall. apply elem_of_app. right. by apply list_elem_of_singleton.
  - intros s Hin. split.
    + apply Hall. apply elem_of_app. by left.
    + rewrite fmap_app in Hnd. cbn in Hnd.
      apply NoDup_app in Hnd as (_ & Hdisj & _). intros Heq.
      apply (Hdisj (oid p)).
      * apply list_elem_of_fmap. exists s. by split.
      * by apply list_elem_of_singleton.
Qed.

Lemma handedBack_oid (protect : bool) (fresh : nat) (p : ImageData) :
  oid (handedBack protect fresh p) = if protect then fresh else oid p.
Proof. by destruct protect. Qed.

Lemma undo_returned_not_stored (e : Env) (h : History) (r : ImageData) :
  wellKeyed h → (undo e h).1 = Some r → oid r ∉ oid <$> stored (undo e h).2.
Proof.
  intros Hk Hret. destruct (canUndo h) eqn:Hc;
    [|by rewrite undo_refused in Hret].
  destruct (canUndo_true h Hc) as (Ht & rest & p & Hs).
  pose proof (undo_cases e h rest p Ht Hs) as H.
  unfold wellKeyed in Hk. rewrite Hs in Hk.
  destruct (keyed_popped_undo _ _ _ _ _ Hk) as [Hp Hothers].
  unfold stored. intros Hin.
  apply list_elem_of_fmap in Hin as (s & Heq & Hin).
  destruct (getImageData e h) as [w ht px| |];
    destruct H as (Hr & Hu & Hre & _); rewrite Hr in Hret;
    try done; injection Hret as <-; rewrite handedBack_oid in Heq;
    rewrite Hu, Hre in Hin.
  - rewrite app_assoc in Hin. apply elem_of_app in Hin as [Hin|Hin].
    + destruct (Hothers s Hin). destruct (protectReturned h); [lia|done].
    + apply list_elem_of_singleton in Hin as ->. cbn in Heq.
      destruct (protectReturned h); lia.
  - destruct (Hothers s Hin). destruct (protectReturned h); [lia|done].
Qed.

Lemma redo_returned_not_stored (e : Env) (h : History) (r : ImageData) :
  wellKeyed h → (redo e h).1 = Some r → oid r ∉ oid <$> stored (redo e h).2.
Proof.
  intros Hk Hret. destruct (canRedo h) eqn:Hc;
    [|by rewrite redo_refused in Hret].
  destruct (canRedo_true h Hc) as (Ht & rest & p & Hs).
  pose proof (redo_cases e h rest p Ht Hs) as H.
  unfold wellKeyed in Hk. rewrite Hs in Hk.
  destruct (keyed_popped_redo _ _ _ _ _ Hk) as [Hp Hothers].
  unfold stored. intros Hin.
  apply list_elem_of_fmap in Hin as (s & Heq & Hin).
  destruct (getImageData e h) as [w ht px| |]; cbv zeta in H;
    destruct H as (Hr & Hu & Hre & _); rewrite Hr in Hret;
    try done; injection Hret as <-; rewrite handedBack_oid in Heq;
    rewrite Hu, Hre in Hin.
  - match type of Hin with context [_enforceLimits ?X] =>
      destruct (enforce_prefix X) as (k & Hd & _) end.
    rewrite Hd in Hin. cbn in Hin.
    assert (s ∈ (undoStack h ++ rest)
            ∨ s = mkImageData (nextId h) w ht px) as [Hin'| ->].
    { apply elem_of_app in Hin as [Hin|Hin].
      - pose proof (elem_of_sublist _ _ _ Hin (sublist_drop _ k)) as Hin'.
        apply elem_of_app in Hin' as [?|Hx].
        + left. apply elem_of_app. by left.
        + right. by apply list_elem_of_singleton in Hx.
      - left. apply elem_of_app. by right. }
    + destruct (Hothers s Hin'). destruct (protectReturned h); [lia|done].
    + cbn in Heq. destruct (protectReturned h); lia.
  - destruct (Hothers s Hin). destruct (protectReturned h); [lia|done].
Qed.

(** X5. In a history whose stored identities are distinct and allocated
    (as they are in every session), the snapshot that [undo()] or
    [redo()] returns is no longer held by the history after the call,
    whether or not [protectReturned] is set: the caller gets either a
    fresh copy or the instance that has just left its stack, never an
    object that one of the stacks still holds. *)
Theorem returned_snapshot_not_stored (op : Op) (h : History) (r : ImageData) :
  wellKeyed h →
  (exec op h).1 = RImage (Some r) →
  oid r ∉ oid <$> stored (step op h).
Proof.
  intros Hk Hret. unfold step.
  destruct op as [e lbl|e|e|n|v|e|k out]; cbn in *; try done.
  - by destruct (pushHistory e lbl h).
  - pose proof (undo_returned_not_stored e h r Hk) as H.
    destruct (undo e h) as [o h']. injection Hret as ->. by apply H.
  - pose proof (redo_returned_not_stored e h r Hk) as H.
    destruct (redo e h) as [o h']. injection Hret as ->. by apply H.
Qed.

Lemma returned_snapshot_not_stored_witness :
  let r := mkImageData 1 2 1 (bytesA ++ bytesB) in
  (wellKeyed twoLoads
   ∧ (exec (Undo surfaceWide) twoLoads).1 = RImage (Some r))
  ∧ oid r ∉ oid <$> stored (step (Undo surfaceWide) twoLoads).
Proof.
  cbv zeta.
  assert (wellKeyed twoLoads) as Hk
    by (unfold twoLoads, session; apply run_wellKeyed, initHistory_wellKeyed).
  split; [split; [exact Hk | vm_compute; reflexivity]|].
  apply (returned_snapshot_not_stored (Undo surfaceWide) twoLoads
           (mkImageData 1 2 1 (bytesA ++ bytesB)) Hk).
  vm_compute; reflexivity.
Defined.

(** ** Eviction does no more than the limits ask *)

Lemma evictByBytes_id (maxB : N) (redo undo : list ImageData) (mm : gmap nat Meta) :
  estimate undo redo ≤ maxB → evictByBytes maxB redo undo mm = (undo, mm).
Proof.
  destruct undo as [|s rest]; [done|]. intros Hle.
  rewrite evictByBytes_cons.
  destruct (maxB <? _) eqn:E; [|done]. apply N.ltb_lt in E. lia.
Qed.

Lemma enforce_id (h : History) :
  withinCount h → withinBytes h → _enforceLimits h = h.
Proof.
  unfold withinCount, withinBytes, _enforceLimits, getEstimatedBytes.
  intros Hc Hb. rewrite evictByCount_id by done.
  destruct (byteCap (maxBytes h)) as [maxB|].
  - rewrite evictByBytes_id by done. by destruct h.
  - by destruct h.
Qed.

Lemma evictByCount_exact (maxE : N) (undo : list ImageData) (mm : gmap nat Meta) :
  (evictByCount maxE undo mm).1 = drop (length undo - N.to_nat maxE) undo.
Proof.
  revert mm. induction undo as [|s rest IH]; intros mm; [done|].
  rewrite evictByCount_cons. destruct (maxE <? _) eqn:E.
  - apply N.ltb_lt in E. rewrite IH. cbn [length].
    replace (S (length rest) - N.to_nat maxE)%nat
      with (S (length rest - N.to_nat maxE)) by lia.
    done.
  - apply N.ltb_ge in E. cbn [length fst].
    replace (S (length rest) - N.to_nat maxE)%nat with 0%nat by lia.
    done.
Qed.

Lemma enforce_undoStack_no_cap (h : History) :
  byteCap (maxBytes h) = None →
  undoStack (_enforceLimits h)
  = drop (length (undoStack h) - N.to_nat (maxEntries h)) (undoStack h).
Proof.
  intros Hcap. unfold _enforceLimits.
  pose proof (evictByCount_exact (maxEntries h) (undoStack h) (metaMap h)) as H.
  destruct (evictByCount _ _ _) as [u1 m1]. by rewrite Hcap.
Qed.

(** X6. Raising the limit evicts nothing: when [setMaxEntries(n)] is given
    a number whose floor is at least the current undo count and the byte
    limit, if any, already holds, the call installs the new limit and
    leaves both stacks and the metadata table exactly as they were. *)
Theorem setMaxEntries_raise_keeps_everything (q : Q) (h : History) :
  JS.le q 0 = false →
  N.of_nat (getUndoCount h) ≤ JS.floorN q →
  withinBytes h →
  let h' := setMaxEntries (JS.Num (JS.Fin q)) h in
  maxEntries h' = JS.floorN q
  ∧ undoStack h' = undoStack h
  ∧ redoStack h' = redoStack h
  ∧ metaMap h' = metaMap h.
Proof.
  intros Hpos Hlen Hb. cbv zeta. unfold setMaxEntries. cbn [JS.finite].
  rewrite Hpos. rewrite enforce_id; [by frame|done|done].
Qed.

Lemma setMaxEntries_raise_keeps_everything_witness :
  (JS.le (inject_Z 5) 0 = false
   ∧ N.of_nat (getUndoCount twoLoads) ≤ JS.floorN (inject_Z 5)
   ∧ withinBytes twoLoads)
  ∧ let h' := setMaxEntries (JS.Num (JS.Fin (inject_Z 5))) twoLoads in
    maxEntries h' = JS.floorN (inject_Z 5)
    ∧ undoStack h' = undoStack twoLoads
    ∧ redoStack h' = redoStack twoLoads
    ∧ metaMap h' = metaMap twoLoads.
Proof.
  split.
  - split; [reflexivity|]. split; vm_compute; discriminate.
  - apply (setMaxEntries_raise_keeps_everything (inject_Z 5) twoLoads).
    + reflexivity.
    + vm_compute; discriminate.
    + vm_compute; discriminate.
Defined.

(** ** Undo followed by redo *)

(** [undo] changes neither the configuration nor the canvas binding. *)
Lemma undo_config (e : Env) (h : History) :
  ctxReady (undo e h).2 = ctxReady h
  ∧ maxEntries (undo e h).2 = maxEntries h
  ∧ maxBytes (undo e h).2 = maxBytes h
  ∧ protectReturned (undo e h).2 = protectReturned h.
Proof. unfold undo, pop. branches; done. Qed.

(** X7. Undo followed by redo, both with a readable surface, on a clean
    history within its count limit and without a byte limit: the redo
    returns the pixels the surface showed when undo was called, the redo
    stack is back to what it was, and the undo stack has its old length
    again, its top entry replaced by a capture of the surface at the time
    of the redo. *)
Theorem undo_then_redo_round_trip
    (e1 e2 : Env) (h : History) (rest : list ImageData) (p : ImageData)
    (w1 t1 w2 t2 : N) (px1 px2 : list byte) :
  isTainted h = false → ctxReady h = true →
  undoStack h = rest ++ [p] →
  withinCount h → byteCap (maxBytes h) = None →
  readSurface e1 = ReadOk w1 t1 px1 →
  readSurface e2 = ReadOk w2 t2 px2 →
  let h1 := (undo e1 h).2 in
  pixelsOf <$> (redo e2 h1).1 = Some (w1, t1, px1)
  ∧ redoStack (redo e2 h1).2 = redoStack h
  ∧ ∃ c, undoStack (redo e2 h1).2 = rest ++ [c] ∧ pixelsOf c = (w2, t2, px2).
Proof.
  intros Ht Hc Hs Hwc Hcap Hr1 Hr2. cbv zeta.
  pose proof (undo_cases e1 h rest p Ht Hs) as H1.
  unfold getImageData in H1. rewrite Hc, Hr1 in H1.
  destruct H1 as (_ & Hu1 & Hre1 & _ & _ & Ht1).
  destruct (undo_config e1 h) as (Hc1 & Hme1 & Hmb1 & Hp1).
  set (h1 := (undo e1 h).2) in *.
  pose proof (redo_cases e2 h1 (redoStack h) _ Ht1 Hre1) as H2.
  unfold getImageData in H2. rewrite Hc1, Hc, Hr2 in H2. cbv zeta in H2.
  destruct H2 as (Hret & Hu2 & Hre2 & _).
  split; [|split; [done|]].
  - rewrite Hret. cbn. by destruct (protectReturned h1).
  - rewrite Hu2, enforce_undoStack_no_cap by (cbn; by rewrite Hmb1).
    cbn. rewrite Hu1, Hme1, length_app. cbn.
    unfold withinCount in Hwc. rewrite Hs, length_app in Hwc. cbn in Hwc.
    replace (length rest + 1 - N.to_nat (maxEntries h))%nat with 0%nat by lia.
    cbn. eauto.
Qed.

Lemma undo_then_redo_round_trip_witness :
  let h := (pushHistory surfaceA None fresh).2 in
  (isTainted h = false ∧ ctxReady h = true
   ∧ undoStack h = [] ++ [mkImageData 0 1 1 bytesA]
   ∧ withinCount h ∧ byteCap (maxBytes h) = None
   ∧ readSurface surfaceB = ReadOk 1 1 bytesB
   ∧ readSurface surfaceWide = ReadOk 2 1 (bytesA ++ bytesB))
  ∧ let h1 := (undo surfaceB h).2 in
    pixelsOf <$> (redo surfaceWide h1).1 = Some (1, 1, bytesB)
    ∧ redoStack (redo surfaceWide h1).2 = redoStack h
    ∧ ∃ c, undoStack (redo surfaceWide h1).2 = [] ++ [c]
           ∧ pixelsOf c = (2, 1, bytesA ++ bytesB).
Proof.
  cbv zeta. split.
  - repeat split; try (vm_compute; reflexivity). vm_compute; discriminate.
  - apply (undo_then_redo_round_trip surfaceB surfaceWide
             (pushHistory surfaceA None fresh).2 [] (mkImageData 0 1 1 bytesA)
             1 1 2 1 bytesB (bytesA ++ bytesB));
      try (vm_compute; reflexivity).
    vm_compute; discriminate.
Defined.

(** ** What a successful push leaves on the undo stack *)

Lemma push_reads (e : Env) (h : History) (w ht : N) (px : list byte) :
  ctxReady h = true → canvasWidth e ≠ 0 → readSurface e = ReadOk w ht px →
  negb (ctxReady h) || (canvasWidth e =? 0) = false
  ∧ getImageData e h = ReadOk w ht px.
Proof.
  intros Hc Hw Hr. apply N.eqb_neq in Hw. unfold getImageData.
  by rewrite Hc, Hw, Hr.
Qed.

(** X8. Without a byte limit, a push with a readable surface returns
    [true] and leaves on the undo stack the newest [maxEntries] of the old
    entries followed by the new snapshot: the undo count becomes the
    smaller of the old count plus one and [maxEntries], and the top entry
    carries the pixels just read, unless [maxEntries] is 0 and the stack is
    empty. *)
Theorem push_keeps_newest_entries
    (e : Env) (lbl : option string) (h : History) (w ht : N) (px : list byte) :
  ctxReady h = true → canvasWidth e ≠ 0 → readSurface e = ReadOk w ht px →
  byteCap (maxBytes h) = None →
  let h' := (pushHistory e lbl h).2 in
  (pushHistory e lbl h).1 = true
  ∧ undoStack h' =
      drop (S (getUndoCount h) - N.to_nat (maxEntries h))
        (undoStack h ++ [mkImageData (nextId h) w ht px])
  ∧ getUndoCount h' = Nat.min (S (getUndoCount h)) (N.to_nat (maxEntries h))
  ∧ last (pixelsOf <$> undoStack h') =
      (if maxEntries h =? 0 then None else Some (w, ht, px)).
Proof.
  intros Hc Hw Hr Hcap. cbv zeta.
  destruct (push_reads e h w ht px Hc Hw Hr) as [Hg Hread].
  pose proof (push_cases e lbl h) as H. rewrite Hg, Hread in H. cbv zeta in H.
  destruct H as (Hret & Hu & _).
  rewrite enforce_undoStack_no_cap in Hu by done. cbn in Hu.
  rewrite length_app, Nat.add_1_r in Hu. unfold getUndoCount.
  split; [done|]. split; [done|]. rewrite Hu. split.
  - rewrite length_drop, length_app. cbn [length]. lia.
  - destruct (maxEntries h =? 0) eqn:E.
    + apply N.eqb_eq in E. rewrite E. cbn. rewrite Nat.sub_0_r.
      rewrite drop_ge; [done|]. rewrite length_app. cbn. lia.
    + apply N.eqb_neq in E.
      rewrite drop_app_le by lia. by rewrite fmap_snoc, last_snoc.
Qed.

Lemma push_keeps_newest_entries_witness :
  (ctxReady keepsTwo = true ∧ canvasWidth surfaceB ≠ 0
   ∧ readSurface surfaceB = ReadOk 1 1 bytesB
   ∧ byteCap (maxBytes keepsTwo) = None)
  ∧ let h' := (pushHistory surfaceB None keepsTwo).2 in
    (pushHistory surfaceB None keepsTwo).1 = true
    ∧ undoStack h' =
        drop (S (getUndoCount keepsTwo) - N.to_nat (maxEntries keepsTwo))
          (undoStack keepsTwo ++ [mkImageData (nextId keepsTwo) 1 1 bytesB])
    ∧ getUndoCount h' =
        Nat.min (S (getUndoCount keepsTwo)) (N.to_nat (maxEntries keepsTwo))
    ∧ last (pixelsOf <$> undoStack h') =
        (if maxEntries keepsTwo =? 0 then None else Some (1, 1, bytesB)).
Proof.
  split; [split; [reflexivity|split; [discriminate|split; reflexivity]]|].
  apply (push_keeps_newest_entries surfaceB None keepsTwo 1 1 bytesB);
    try (vm_compute; reflexivity).
  discriminate.
Defined.

Lemma sumBytes_cons (t : N) (s : ImageData) (l : list ImageData) :
  sumBytes t (s :: l) = sumBytes (t + bytesOf s) l.
Proof. reflexivity. Qed.

Lemma sumBytes_acc (t : N) (l : list ImageData) :
  sumBytes t l = t + sumBytes 0 l.
Proof.
  revert t. induction l as [|s l IH]; intros t; [cbn; lia|].
  rewrite !sumBytes_cons, IH, (IH (0 + _)). lia.
Qed.

Lemma sumBytes_elem (s : ImageData) (l : list ImageData) :
  s ∈ l → bytesOf s ≤ sumBytes 0 l.
Proof.
  induction l as [|x l IH]; intros Hin; [by apply elem_of_nil in Hin|].
  rewrite sumBytes_cons, sumBytes_acc.
  apply elem_of_cons in Hin as [->|Hin]; [lia|].
  specialize (IH Hin). lia.
Qed.

(** X9. A snapshot larger than the byte limit is never kept, and takes the
    whole undo history with it: when the surface just read needs more than
    [maxBytes] bytes, the push still returns [true] and clears the redo
    stack, but eviction empties the undo stack, the new snapshot included,
    and deletes the new snapshot's metadata. *)
Theorem oversized_push_empties_undo
    (e : Env) (lbl : option string) (h : History) (w ht : N) (px : list byte)
    (maxB : N) :
  ctxReady h = true → canvasWidth e ≠ 0 → readSurface e = ReadOk w ht px →
  byteCap (maxBytes h) = Some maxB → maxB < w * ht * 4 →
  let h' := (pushHistory e lbl h).2 in
  (pushHistory e lbl h).1 = true
  ∧ undoStack h' = [] ∧ redoStack h' = []
  ∧ metaMap h' !! nextId h = None.
Proof.
  intros Hc Hw Hr Hcap Hbig. cbv zeta.
  destruct (push_reads e h w ht px Hc Hw Hr) as [Hg Hread].
  pose proof (push_cases e lbl h) as H. rewrite Hg, Hread in H. cbv zeta in H.
  destruct H as (Hret & Hu & Hre & Hm & _).
  match type of Hu with _ = undoStack (_enforceLimits ?X) => set (g := X) in * end.
  destruct (enforce_prefix g) as (k & Hd & Hdm).
  assert (undoStack (_enforceLimits g) = []) as Hnil.
  { destruct (enforce_byte_bound g maxB Hcap) as [Hle|Hnil]; [|done].
    unfold getEstimatedBytes in Hle. rewrite enforce_redoStack in Hle.
    rewrite Hd in *. cbn in Hle |- *.
    destruct (decide (k ≤ length (undoStack h))%nat) as [Hk|Hk].
    - rewrite drop_app_le in Hle by done.
      pose proof (sumBytes_elem (mkImageData (nextId h) w ht px)
                    (drop k (undoStack h) ++ [mkImageData (nextId h) w ht px]))
        as Hs.
      unfold bytesOf, estimate, bytesPerPixel in *. cbn in Hs, Hle.
      assert (w * ht * 4 ≤
              sumBytes 0 (drop k (undoStack h)
                          ++ [mkImageData (nextId h) w ht px])) as Hs'.
      { apply Hs. apply elem_of_app. right. by apply list_elem_of_singleton. }
      lia.
    - apply drop_ge. rewrite length_app. cbn. lia. }
  split; [done|]. split; [by rewrite Hu|]. split; [done|].
  rewrite Hm, Hdm. apply (dropMeta_evicted _ _ (mkImageData (nextId h) w ht px)).
  rewrite Hd in Hnil. cbn in Hnil |- *.
  assert (length (undoStack h ++ [mkImageData (nextId h) w ht px]) ≤ k)%nat
    as Hlen.
  { destruct (decide (length (undoStack h ++ [mkImageData (nextId h) w ht px])
                      ≤ k)%nat) as [?|Hn]; [done|].
    apply (f_equal length) in Hnil. rewrite length_drop in Hnil. cbn in Hnil.
    lia. }
  rewrite take_ge by done. apply elem_of_app. right.
  by apply list_elem_of_singleton.
Qed.

Lemma oversized_push_empties_undo_witness :
  let h := session nothingSaved nothingSaved true
             (ArgOptions (limitOptions JS.Undefined (jsInt 4)))
             [Push surfaceA None] in
  (getUndoCount h = 1%nat ∧ byteCap (maxBytes h) = Some 4 ∧ 4 < 2 * 1 * 4)
  ∧ (pushHistory surfaceWide None h).1 = true
  ∧ undoStack (pushHistory surfaceWide None h).2 = []
  ∧ redoStack (pushHistory surfaceWide None h).2 = []
  ∧ metaMap (pushHistory surfaceWide None h).2 !! nextId h = None.
Proof.
  cbv zeta. split; [repeat split; vm_compute; reflexivity|].
  apply (oversized_push_empties_undo surfaceWide None
           (session nothingSaved nothingSaved true
              (ArgOptions (limitOptions JS.Undefined (jsInt 4)))
              [Push surfaceA None]) 2 1 (bytesA ++ bytesB) 4);
    try (vm_compute; reflexivity).
  discriminate.
Defined.

(** ** The entry list after a push and after a thumbnail *)

Lemma last_imap {A B} (f : nat → A → B) (l : list A) (x : A) :
  last (imap f (l ++ [x])) = Some (f (length l) x).
Proof.
  rewrite last_lookup, length_imap, length_app, Nat.add_1_r. cbn.
  rewrite list_lookup_imap, lookup_app_r by lia.
  by rewrite Nat.sub_diag.
Qed.

(** X10. After a push with a readable surface on a history without a byte
    limit and with [maxEntries] at least 1 (its stored identities distinct
    and allocated, as in every session), the last entry of
    [getHistoryThumbnails()] describes the snapshot just taken: its index
    is the undo count minus one, its dimensions are those read, its label
    is the label given (the empty string when none was), its timestamp the
    time of the push, and it has no thumbnail yet. *)
Theorem pushed_entry_listed_last
    (e : Env) (lbl : option string) (h : History) (w ht : N) (px : list byte) :
  wellKeyed h →
  ctxReady h = true → canvasWidth e ≠ 0 → readSurface e = ReadOk w ht px →
  byteCap (maxBytes h) = None → maxEntries h ≠ 0 →
  let h' := (pushHistory e lbl h).2 in
  last (getHistoryThumbnails h') =
    Some (mkEntry (pred (getUndoCount h')) w ht (now e) (strOrEmpty lbl) None).
Proof.
  intros Hk Hc Hw Hr Hcap Hme. cbv zeta.
  destruct (push_reads e h w ht px Hc Hw Hr) as [Hg Hread].
  pose proof (push_cases e lbl h) as H. rewrite Hg, Hread in H. cbv zeta in H.
  destruct H as (_ & Hu & _ & Hm & _).
  match type of Hu with _ = undoStack (_enforceLimits ?X) => set (g := X) in * end.
  destruct (enforce_prefix g) as (k & Hd & Hdm).
  pose proof (enforce_undoStack_no_cap g Hcap) as Hex.
  set (snap := mkImageData (nextId h) w ht px) in *.
  assert (k ≤ length (undoStack h))%nat as Hk'.
  { rewrite Hd in Hex. apply (f_equal length) in Hex.
    rewrite !length_drop in Hex. cbn in Hex. rewrite length_app in Hex.
    cbn in Hex. lia. }
  cbn in Hd, Hdm. rewrite drop_app_le in Hd by done.
  rewrite take_app_le in Hdm by done.
  unfold getHistoryThumbnails, getUndoCount. rewrite Hu, Hm, Hd, Hdm.
  rewrite last_imap, length_app, Nat.add_1_r. cbn [pred].
  unfold entryOf. rewrite dropMeta_kept.
  - subst snap. cbn [oid]. by rewrite lookup_insert_eq.
  - subst snap. cbn [oid]. intros Hin.
    apply (keyed_fresh _ _ _ _ Hk).
    apply list_elem_of_fmap in Hin as (s & Hs & Hin).
    apply list_elem_of_fmap. exists s. split; [done|].
    apply elem_of_app. left.
    eapply elem_of_sublist; [exact Hin|apply sublist_take].
Qed.

Lemma pushed_entry_listed_last_witness :
  (wellKeyed keepsTwo ∧ ctxReady keepsTwo = true ∧ maxEntries keepsTwo ≠ 0)
  ∧ let h' := (pushHistory surfaceB (Some "Crop") keepsTwo).2 in
    last (getHistoryThumbnails h') =
      Some (mkEntry (pred (getUndoCount h')) 1 1 (now surfaceB)
              (strOrEmpty (Some "Crop")) None).
Proof.
  assert (wellKeyed keepsTwo) as Hk.
  { unfold keepsTwo. apply run_wellKeyed, setMaxEntries_wellKeyed.
    unfold fresh. apply initHistory_wellKeyed. }
  split; [split; [exact Hk|split; [reflexivity|discriminate]]|].
  apply (pushed_entry_listed_last surfaceB (Some "Crop") keepsTwo 1 1 bytesB Hk);
    try (vm_compute; reflexivity); discriminate.
Defined.

(** X11. When the thumbnail job of a snapshot that is still on the undo
    stack completes with an encoded preview, the entry listed at that
    snapshot's index gets the preview (none when the data URL is empty),
    every other listed entry is unchanged, and neither stack changes; the
    stored identities are taken to be distinct, as in every session. *)
Theorem thumbnail_reaches_its_entry
    (k i : nat) (url : string) (img : ImageData) (h : History) :
  NoDup (oid <$> undoStack h) →
  pendingThumbs h !! k = Some img →
  undoStack h !! i = Some img →
  let h' := thumbJobDone k (Encoded url) h in
  (en_thumbDataUrl <$> getHistoryThumbnails h' !! i) = Some (urlOrNull (Some url))
  ∧ (∀ j, j ≠ i → getHistoryThumbnails h' !! j = getHistoryThumbnails h !! j)
  ∧ undoStack h' = undoStack h ∧ redoStack h' = redoStack h.
Proof.
  intros Hnd Hp Hi. cbv zeta. unfold thumbJobDone. rewrite Hp.
  unfold getHistoryThumbnails. autorewrite with ui. cbn.
  split; [|split; [|done]].
  - rewrite list_lookup_imap, Hi. cbn. unfold entryOf.
    by rewrite lookup_insert_eq.
  - intros j Hj. rewrite !list_lookup_imap.
    destruct (undoStack h !! j) as [s|] eqn:Hs; [|done]. cbn.
    unfold entryOf. rewrite lookup_insert_ne; [done|].
    intros Heq. apply Hj.
    eapply NoDup_lookup; [exact Hnd| |].
    + rewrite list_lookup_fmap, Hs. cbn. by rewrite <- Heq.
    + by rewrite list_lookup_fmap, Hi.
Qed.

Lemma thumbnail_reaches_its_entry_witness :
  let img := mkImageData 1 2 1 (bytesA ++ bytesB) in
  (NoDup (oid <$> undoStack twoLoads)
   ∧ pendingThumbs twoLoads !! 1%nat = Some img
   ∧ undoStack twoLoads !! 1%nat = Some img)
  ∧ let h' := thumbJobDone 1 (Encoded "data:image/webp;base64,AA") twoLoads in
    (en_thumbDataUrl <$> getHistoryThumbnails h' !! 1%nat)
      = Some (urlOrNull (Some "data:image/webp;base64,AA"))
    ∧ (∀ j, j ≠ 1%nat →
         getHistoryThumbnails h' !! j = getHistoryThumbnails twoLoads !! j)
    ∧ undoStack h' = undoStack twoLoads ∧ redoStack h' = redoStack twoLoads.
Proof.
  cbv zeta.
  assert (NoDup (oid <$> undoStack twoLoads)) as Hnd.
  { vm_compute. apply NoDup_cons. split.
    - intros H. apply list_elem_of_singleton in H. discriminate.
    - apply NoDup_singleton. }
  split; [split; [exact Hnd|split; vm_compute; reflexivity]|].
  apply (thumbnail_reaches_its_entry 1 1 "data:image/webp;base64,AA"
           (mkImageData 1 2 1 (bytesA ++ bytesB)) twoLoads Hnd);
    vm_compute; reflexivity.
Defined.

(** ** Notifications describe the state the call leaves *)

Lemma reports_updateUI (ex ex0 : Extra) (h x : History) :
  uiLog x = uiLog h → ex = ex0 → reportsState ex h (_updateUI ex0 x).
Proof.
  intros Hl <-. unfold reportsState, _updateUI.
  destruct (sinkIsFunction x); [|by left].
  right. cbn. by rewrite Hl.
Qed.

Lemma reports_schedule (ex : Extra) (img : ImageData) (h x : History) :
  reportsState ex h x → reportsState ex h (_scheduleThumbGeneration img x).
Proof. intros [Hl|Hl]; [by left|by right]. Qed.

Lemma pushHistory_reports (e : Env) (lbl : option string) (h : History) :
  let h' := (pushHistory e lbl h).2 in
  reportsState
    (if isTainted h' then ExtraTainted true
     else if isTainted h then ExtraTainted false else NoExtra) h h'.
Proof.
  cbv zeta. unfold pushHistory, allocImageData.
  destruct (negb (ctxReady h) || (canvasWidth e =? 0)); [by left|].
  destruct (getImageData e h); [| |by left].
  - cbn -[_enforceLimits _updateUI _scheduleThumbGeneration].
    match goal with |- context [isTainted (_enforceLimits ?X)] =>
      set (g := _enforceLimits X);
      assert (isTainted g = isTainted h) as Hg
        by (subst g; by rewrite enforce_isTainted);
      assert (uiLog g = uiLog h) as Hl
        by (subst g; by rewrite enforce_uiLog);
      clearbody g
    end.
    rewrite <- Hg.
    destruct (isTainted g) eqn:Ht;
      match goal with |- context [thumbEnabled ?x] => destruct (thumbEnabled x) end;
      cbn [snd]; try apply reports_schedule; apply reports_updateUI;
      try done; cbn; autorewrite with ui; cbn; by rewrite ?Ht.
  - cbn [snd]. apply reports_updateUI; [done|]. by autorewrite with ui.
Qed.

Lemma undo_reports (e : Env) (h : History) :
  let h' := (undo e h).2 in
  reportsState (if isTainted h' then ExtraTainted true else NoExtra) h h'.
Proof.
  cbv zeta. unfold undo, pop, cloneImageData, allocImageData.
  destruct (isTainted h || negb (canUndo h)) eqn:Hguard; [by left|].
  apply orb_false_iff in Hguard as [Ht _].
  destruct (getImageData e h); cbn -[_updateUI];
    [|apply reports_updateUI; [done|by autorewrite with ui]|];
    match goal with |- context [last ?l] => destruct (last l) end;
    try (match goal with
         | |- context [protectReturned ?g] => destruct (protectReturned g)
         end);
    cbn [snd]; apply reports_updateUI; try done;
    autorewrite with ui; cbn; by rewrite Ht.
Qed.

Lemma redo_reports (e : Env) (h : History) :
  let h' := (redo e h).2 in
  reportsState (if isTainted h' then ExtraTainted true else NoExtra) h h'.
Proof.
  cbv zeta. unfold redo, pop, cloneImageData, allocImageData.
  destruct (isTainted h || negb (canRedo h)) eqn:Hguard; [by left|].
  apply orb_false_iff in Hguard as [Ht _].
  destruct (last (redoStack h)); cbn -[_updateUI _enforceLimits]; [|by left].
  destruct (getImageData e _); cbn -[_updateUI _enforceLimits];
    [|apply reports_updateUI; [done|by autorewrite with ui]|];
    match goal with
    | |- context [protectReturned ?g] => destruct (protectReturned g)
    end;
    cbn [snd]; apply reports_updateUI;
    try (cbn -[_enforceLimits]; by rewrite ?enforce_uiLog);
    repeat (progress (autorewrite with ui; cbn)); by rewrite Ht.
Qed.

Lemma extraSent_agrees (op : Op) (h h' : History) :
  extraAgrees (extraSent op h h') h'.
Proof.
  destruct op; cbn; try done;
    destruct (isTainted h') eqn:E; try done; by destruct (isTainted h).
Qed.

(** X12. Every call leaves the UI callback either not called or called
    exactly once, and what that one call receives is computed from the
    state the call leaves behind: the undo and redo counts, byte estimate,
    limits, entry list and thumbnail preferences of the payload are those
    of the history after the call, and the [extra] spread over it is the
    one the call is to send ([extraSent]), whose fields (the [limits] sent
    by [setMaxEntries], the [thumbHeight] sent by [setThumbHeight], the
    [tainted] flag) also carry the values of the history after the call,
    never those of an earlier or intermediate state. *)
Theorem notification_describes_final_state (op : Op) (h : History) :
  (uiLog (step op h) = uiLog h
   ∨ uiLog (step op h)
     = uiLog h ++ [payloadOf (extraSent op h (step op h)) (step op h)])
  ∧ extraAgrees (extraSent op h (step op h)) (step op h).
Proof.
  split; [|apply extraSent_agrees].
  change (reportsState (extraSent op h (step op h)) h (step op h)).
  destruct op as [e lbl|e|e|n|v|e|k out]; unfold step, exec, extraSent.
  - pose proof (pushHistory_reports e lbl h) as H.
    by destruct (pushHistory e lbl h).
  - pose proof (undo_reports e h) as H. by destruct (undo e h).
  - pose proof (redo_reports e h) as H. by destruct (redo e h).
  - cbn [snd]. unfold setMaxEntries.
    destruct (JS.finite n) as [q|]; [|by left].
    destruct (JS.le q 0); [by left|].
    apply reports_updateUI; [cbn; by rewrite enforce_uiLog|].
    unfold getLimits. by autorewrite with ui.
  - cbn [snd]. unfold setThumbHeight.
    destruct (JS.finite v) as [q|]; [|by left].
    destruct (JS.ge q 48 && JS.le q 256); [|by left].
    apply reports_updateUI; [done|]. by autorewrite with ui.
  - cbn [snd]. unfold restoreImageData.
    destruct (negb (ctxReady h)); [by left|].
    apply pushHistory_reports.
  - cbn [snd]. unfold thumbJobDone.
    destruct (pendingThumbs h !! k); [|by left].
    destruct out; [|by left]. by apply reports_updateUI.
Qed.

(** * Properties of the callers *)

(** ** The thumbnail size control *)

Lemma Qle_bool_inject_Z (a b : Z) :
  Qle_bool (inject_Z a) (inject_Z b) = (a <=? b)%Z.
Proof.
  destruct (a <=? b)%Z eqn:E.
  - apply Qle_bool_iff. rewrite <- Zle_Qle. by apply Z.leb_le.
  - apply not_true_is_false. intros H. apply Qle_bool_iff in H.
    rewrite <- Zle_Qle in H. apply Z.leb_gt in E. lia.
Qed.

Lemma floor_ge (q : Q) (k : Z) :
  Qle_bool (inject_Z k) q = true → (k ≤ Qfloor q)%Z.
Proof.
  intros H. apply Qle_bool_iff in H. apply Qfloor_resp_le in H.
  by rewrite Qfloor_Z in H.
Qed.

Lemma floor_le (q : Q) (k : Z) :
  Qle_bool q (inject_Z k) = true → (Qfloor q ≤ k)%Z.
Proof.
  intros H. apply Qle_bool_iff in H. apply Qfloor_resp_le in H.
  by rewrite Qfloor_Z in H.
Qed.

(** X13. For every finite value of the thumbnail size control, the strip
    is given a whole number of pixels between 48 and 256. When the value
    lies in [48, 256] that number is its floor and the history module
    stores the same number as its thumbnail height; when it lies outside,
    the strip is clamped but the history module keeps its state, so the
    two heights can differ. *)
Theorem strip_height_and_thumbnail_height (q : Q) (h : History) :
  ∃ z : Z,
    (onHistSizeChange (JS.Fin q) h).1 = Some (JS.Fin (inject_Z z))
    ∧ (48 ≤ z ≤ 256)%Z
    ∧ (if JS.ge q 48 && JS.le q 256
       then z = Qfloor q
            ∧ thumbHeight (onHistSizeChange (JS.Fin q) h).2
              = JS.Fin (inject_Z z)
       else (onHistSizeChange (JS.Fin q) h).2 = h).
Proof.
  exists (Z.max 48 (Z.min 256 (Qfloor q))).
  unfold onHistSizeChange, applyHistSize, setThumbHeight. cbn [fst snd negb].
  cbn [JSMath.floor JSMath.min JSMath.max JS.finite].
  split; [|split; [lia|]].
  - rewrite Qle_bool_inject_Z.
    destruct (Z.leb_spec 256 (Qfloor q)); rewrite Qle_bool_inject_Z;
      match goal with |- context [(?a <=? ?b)%Z] =>
        destruct (Z.leb_spec a b) end;
      do 2 f_equal; f_equal; lia.
  - destruct (JS.ge q 48 && JS.le q 256) eqn:E; [|done].
    apply andb_true_iff in E as [Hlo Hhi].
    apply floor_ge in Hlo. apply floor_le in Hhi.
    split; [lia|]. autorewrite with ui. cbn. unfold JS.floor.
    do 2 f_equal. lia.
Qed.

(** ** The undo and redo buttons *)

(** X14. The undo button is enabled exactly when [undo()] returns a
    snapshot on every surface whose read is not refused for security
    reasons, and the redo button exactly when [redo()] does. *)
Theorem enabled_button_means_snapshot (h : History) :
  (undoDisabled (updateUndoRedoButtons h) = false
   ↔ ∀ e, getImageData e h ≠ ReadSecurityError → (undo e h).1 ≠ None)
  ∧ (redoDisabled (updateUndoRedoButtons h) = false
     ↔ ∀ e, getImageData e h ≠ ReadSecurityError → (redo e h).1 ≠ None).
Proof.
  assert (∀ h0, getImageData surfaceBroken h0 ≠ ReadSecurityError) as Hbroken.
  { intros h0. unfold getImageData. by destruct (ctxReady h0). }
  unfold updateUndoRedoButtons, getTainted. cbn. split; split.
  - intros Hd e He. apply orb_false_iff in Hd as [Ht Hc].
    apply negb_false_iff in Hc.
    destruct (canUndo_true h Hc) as (_ & rest & p & Hs).
    pose proof (undo_cases e h rest p Ht Hs) as H.
    destruct (getImageData e h); destruct H as (Hr & _); by rewrite Hr.
  - intros H. specialize (H surfaceBroken (Hbroken h)).
    destruct (canUndo h) eqn:Hc; [|by rewrite undo_refused in H].
    destruct (canUndo_true h Hc) as (-> & _). done.
  - intros Hd e He. apply orb_false_iff in Hd as [Ht Hc].
    apply negb_false_iff in Hc.
    destruct (canRedo_true h Hc) as (_ & rest & p & Hs).
    pose proof (redo_cases e h rest p Ht Hs) as H.
    destruct (getImageData e h); destruct H as (Hr & _); by rewrite Hr.
  - intros H. specialize (H surfaceBroken (Hbroken h)).
    destruct (canRedo h) eqn:Hc; [|by rewrite redo_refused in H].
    destruct (canRedo_true h Hc) as (-> & _). done.
Qed.

(** ** Jumping on the history strip *)

Lemma undoRepeatedly_readable (d : nat) :
  ∀ (surface : nat → Env) (i : nat) (h : History) (drawn : list ImageData),
    isTainted h = false → ctxReady h = true →
    (d ≤ length (undoStack h))%nat →
    (∀ j, ∃ w ht px, readSurface (surface j) = ReadOk w ht px) →
    let r := undoRepeatedly d surface i h drawn in
    undoStack r.1 = take (length (undoStack h) - d) (undoStack h)
    ∧ pixelsOf <$> r.2 =
        (pixelsOf <$> drawn)
        ++ (pixelsOf <$> reverse (drop (length (undoStack h) - d) (undoStack h)))
    ∧ length (redoStack r.1) = (length (redoStack h) + d)%nat
    ∧ isTainted r.1 = false.
Proof.
  induction d as [|d IH]; intros surface i h drawn Ht Hc Hd Hread; cbv zeta.
  - cbn. rewrite Nat.sub_0_r, take_ge, drop_ge by lia.
    by rewrite app_nil_r, Nat.add_0_r.
  - destruct (nonempty_snoc (undoStack h)) as (rest & p & Hs).
    { intros E. rewrite E in Hd. cbn in Hd. lia. }
    pose proof (undo_cases (surface i) h rest p Ht Hs) as H.
    destruct (Hread i) as (w & ht & px & Hr).
    unfold getImageData in H. rewrite Hc, Hr in H.
    destruct H as (Hret & Hu & Hre & _ & _ & Ht').
    destruct (undo_config (surface i) h) as (Hc' & _).
    cbn [undoRepeatedly]. destruct (undo (surface i) h) as [data h1].
    cbn [fst snd] in *. subst data. rewrite Hc in Hc'.
    rewrite Hs, length_app, Nat.add_1_r in Hd.
    specialize (IH surface (S i) h1
                  (drawn ++ [handedBack (protectReturned h) (S (nextId h)) p])
                  Ht' Hc').
    rewrite Hu in IH. specialize (IH ltac:(lia) Hread). cbv zeta in IH.
    destruct IH as (IHu & IHd & IHr & IHt).
    rewrite Hs, length_app, Nat.add_1_r.
    replace (S (length rest) - S d)%nat with (length rest - d)%nat by lia.
    rewrite take_app_le, drop_app_le by lia.
    split; [done|]. split; [|split; [|done]].
    + rewrite IHd, reverse_snoc, fmap_app, fmap_cons, <- app_assoc. cbn.
      do 2 f_equal. unfold pixelsOf. by destruct (protectReturned h).
    + rewrite IHr, Hre, length_app. cbn. lia.
Qed.

(** X15. A click on entry [idx] of the history strip, rendered for a clean
    history whose newest entry has index [currentIdx], with the surface
    readable throughout: the handler calls [undo()] [currentIdx - idx]
    times; afterwards the undo stack holds the entries 0 to [idx], the
    redo stack has grown by the number of undos, and the last image drawn
    on the canvas has the pixels of entry [idx + 1], the entry after the
    one clicked. A click on the newest entry draws nothing. *)
Theorem strip_click_draws_next_entry
    (currentIdx idx : nat) (surface : nat → Env) (h : History) :
  isTainted h = false → ctxReady h = true →
  Z.of_nat currentIdx = getCurrentIndex h →
  (idx ≤ currentIdx)%nat →
  (∀ j, ∃ w ht px, readSurface (surface j) = ReadOk w ht px) →
  let r := stripClick currentIdx idx surface h in
  undoStack r.1 = take (S idx) (undoStack h)
  ∧ last (pixelsOf <$> r.2) = pixelsOf <$> (undoStack h !! S idx)
  ∧ length (redoStack r.1) = (length (redoStack h) + (currentIdx - idx))%nat
  ∧ isTainted r.1 = false.
Proof.
  intros Ht Hc Hcur Hidx Hread. cbv zeta.
  unfold getCurrentIndex, getHistoryThumbnails in Hcur.
  rewrite length_imap in Hcur. unfold stripClick.
  destruct (Z.eqb_spec (Z.of_nat currentIdx - Z.of_nat idx) 0) as [E|E].
  - assert (idx = currentIdx) as -> by lia. cbn.
    rewrite take_ge by lia. rewrite lookup_ge_None_2 by lia.
    rewrite Nat.sub_diag, Nat.add_0_r. done.
  - assert ((0 <? Z.of_nat currentIdx - Z.of_nat idx)%Z = true) as ->
      by (apply Z.ltb_lt; lia).
    replace (Z.to_nat (Z.of_nat currentIdx - Z.of_nat idx))
      with (currentIdx - idx)%nat by lia.
    pose proof (undoRepeatedly_readable (currentIdx - idx) surface 0 h []
                  Ht Hc ltac:(lia) Hread) as H.
    cbv zeta in H. destruct H as (Hu & Hd & Hr & Ht').
    replace (length (undoStack h) - (currentIdx - idx))%nat
      with (S idx) in Hu, Hd by lia.
    split; [done|]. split; [|done].
    rewrite Hd. cbn. rewrite fmap_last, last_reverse.
    by rewrite head_lookup, lookup_drop, Nat.add_0_r.
Qed.

Lemma strip_click_draws_next_entry_witness :
  let surface := fun _ : nat => surfaceWide in
  (isTainted twoLoads = false ∧ ctxReady twoLoads = true
   ∧ Z.of_nat 1 = getCurrentIndex twoLoads ∧ (0 ≤ 1)%nat
   ∧ ∀ j, ∃ w ht px, readSurface (surface j) = ReadOk w ht px)
  ∧ let r := stripClick 1 0 surface twoLoads in
    undoStack r.1 = take 1 (undoStack twoLoads)
    ∧ last (pixelsOf <$> r.2) = pixelsOf <$> (undoStack twoLoads !! 1%nat)
    ∧ length (redoStack r.1) = (length (redoStack twoLoads) + (1 - 0))%nat
    ∧ isTainted r.1 = false.
Proof.
  cbv zeta.
  assert (∀ j : nat, ∃ w ht px, readSurface surfaceWide = ReadOk w ht px)
    as Hread by (intros _; by eexists _, _, _).
  split.
  - split; [vm_compute; reflexivity|]. split; [vm_compute; reflexivity|].
    split; [vm_compute; reflexivity|]. split; [lia|exact Hread].
  - apply (strip_click_draws_next_entry 1 0 (fun _ => surfaceWide) twoLoads);
      try (vm_compute; reflexivity); [lia|exact Hread].
Defined.

(** ** Start-up of the application *)

Lemma pushHistory_limits (e : Env) (lbl : option string) (h : History) :
  maxEntries (pushHistory e lbl h).2 = maxEntries h
  ∧ maxBytes (pushHistory e lbl h).2 = maxBytes h.
Proof.
  unfold pushHistory, allocImageData.
  destruct (negb (ctxReady h) || (canvasWidth e =? 0)); [done|].
  destruct (getImageData e h); [|by frame|done].
  cbn -[_enforceLimits _updateUI].
  match goal with |- context [isTainted ?g] => destruct (isTainted g) end;
    match goal with |- context [thumbEnabled ?g] => destruct (thumbEnabled g) end;
    by frame.
Qed.

Lemma redo_limits (e : Env) (h : History) :
  maxEntries (redo e h).2 = maxEntries h
  ∧ maxBytes (redo e h).2 = maxBytes h.
Proof.
  unfold redo, pop, cloneImageData, allocImageData.
  destruct (isTainted h || negb (canRedo h)); [done|].
  destruct (last (redoStack h)); cbn -[_updateUI _enforceLimits]; [|done].
  destruct (getImageData e _); cbn -[_updateUI _enforceLimits]; [|by frame|];
    match goal with
    | |- context [protectReturned ?g] => destruct (protectReturned g)
    end; by frame.
Qed.

Lemma step_limits_afterStartup (op : Op) (h : History) :
  afterStartup op = true →
  maxEntries (step op h) = maxEntries h ∧ maxBytes (step op h) = maxBytes h.
Proof.
  intros Ha. destruct op as [e lbl|e|e|n|v|e|k out]; try done;
    unfold step, exec.
  - pose proof (pushHistory_limits e lbl h). by destruct (pushHistory e lbl h).
  - destruct (undo_config e h) as (_ & ? & ? & _). by destruct (undo e h).
  - pose proof (redo_limits e h). by destruct (redo e h).
  - cbn [snd]. unfold setThumbHeight.
    destruct (JS.finite v) as [q|]; [|done].
    destruct (JS.ge q 48 && JS.le q 256); by frame.
  - cbn [snd]. unfold restoreImageData. destruct (negb (ctxReady h)); [done|].
    apply pushHistory_limits.
  - cbn [snd]. unfold thumbJobDone.
    destruct (pendingThumbs h !! k); [|done]. destruct out; by frame.
Qed.

Lemma applySavedHistoryMax_limits (saved : JS.value) (h : History) :
  1 ≤ maxEntries h →
  1 ≤ maxEntries (applySavedHistoryMax saved h)
  ∧ maxBytes (applySavedHistoryMax saved h) = maxBytes h.
Proof.
  intros Hh. unfold applySavedHistoryMax, setMaxEntries.
  destruct (JS.finite saved) as [q|]; [|done].
  destruct (JS.gt q 0); [|done]. cbn [JS.finite].
  unfold JS.le, JS.floor. rewrite Qle_bool_inject_Z.
  destruct (Z.leb_spec (Qfloor q) 0); [done|]. frame.
  split; [|done]. unfold JS.floorN, JS.floor. rewrite Qfloor_Z. lia.
Qed.

(** X16. However the application is started, whatever the saved settings
    hold, and whatever calls follow, the history it uses keeps at least
    one entry and has no byte limit: app.js floors a saved [historyMax]
    before handing it to [setMaxEntries], so a saved fraction between 0
    and 1 is rejected instead of turning the limit into 0, and no other
    call of app.js changes the limits. *)
Theorem app_history_keeps_an_entry
    (savedMaxEntries savedThumbHeight : JS.number) (hasCtx : bool)
    (savedHistoryMax : JS.value) (ops : list Op) :
  forallb afterStartup ops = true →
  let h := run ops
             (applySavedHistoryMax savedHistoryMax
                (initHistory hasCtx ArgFunction
                   (moduleState savedMaxEntries savedThumbHeight))) in
  1 ≤ maxEntries h ∧ maxBytes h = None.
Proof.
  intros Hops. cbv zeta.
  set (h0 := applySavedHistoryMax _ _).
  assert (1 ≤ maxEntries h0 ∧ maxBytes h0 = None) as Hh0.
  { subst h0.
    match goal with |- context [applySavedHistoryMax ?v ?x] =>
      destruct (applySavedHistoryMax_limits v x) as [H1 H2] end.
    - unfold initHistory. autorewrite with ui. cbn. unfold DEFAULT_MAX_ENTRIES.
      lia.
    - split; [done|]. rewrite H2. unfold initHistory. by autorewrite with ui. }
  clearbody h0. revert h0 Hh0.
  induction ops as [|op ops IH]; intros h0 Hh0; [done|].
  cbn in Hops. apply andb_true_iff in Hops as [Hop Hops].
  cbn [run fold_left]. apply (IH Hops).
  destruct (step_limits_afterStartup op h0 Hop) as [-> ->]. exact Hh0.
Qed.

Lemma app_history_keeps_an_entry_witness :
  let ops := [Push surfaceA None; Undo surfaceA; SetThumbHeight (jsInt 64)] in
  forallb afterStartup ops = true
  ∧ let h := run ops
               (applySavedHistoryMax (JS.Num (JS.Fin (1 # 2)))
                  (initHistory true ArgFunction
                     (moduleState nothingSaved nothingSaved))) in
    1 ≤ maxEntries h ∧ maxBytes h = None.
Proof.
  cbv zeta. split; [reflexivity|].
  apply (app_history_keeps_an_entry nothingSaved nothingSaved true
           (JS.Num (JS.Fin (1 # 2)))
           [Push surfaceA None; Undo surfaceA; SetThumbHeight (jsInt 64)]).
  reflexivity.
Defined.

(** * More on push, eviction and thumbnail jobs *)

(** X17. A push that cannot take a snapshot for a reason other than a
    security refusal changes nothing at all: when the history has no
    canvas context, when the canvas width is 0, or when the surface read
    throws an error outside the security class, [pushHistory] returns
    [false], the stacks, the taint flag and the metadata are untouched,
    and the UI callback is not called. *)
Theorem push_without_snapshot_changes_nothing
    (e : Env) (lbl : option string) (h : History) :
  ctxReady h = false ∨ canvasWidth e = 0 ∨ readSurface e = ReadOtherError →
  pushHistory e lbl h = (false, h).
Proof.
  intros Hwhy. pose proof (push_cases e lbl h) as H.
  destruct (negb (ctxReady h) || (canvasWidth e =? 0)) eqn:Hg; [done|].
  apply orb_false_iff in Hg as [Hc Hw].
  apply negb_false_iff in Hc. apply N.eqb_neq in Hw.
  destruct Hwhy as [Hn|[Hz|Hr]]; [congruence|done|].
  unfold getImageData in H. by rewrite Hc, Hr in H.
Qed.

Lemma push_without_snapshot_changes_nothing_witness :
  (ctxReady twoLoads = false ∨ canvasWidth surfaceBroken = 0
   ∨ readSurface surfaceBroken = ReadOtherError)
  ∧ pushHistory surfaceBroken (Some "Rotate") twoLoads = (false, twoLoads).
Proof.
  split; [right; right; reflexivity|].
  apply (push_without_snapshot_changes_nothing surfaceBroken (Some "Rotate")
           twoLoads).
  right; right; reflexivity.
Defined.

Lemma enforce_empty_undo (h : History) :
  undoStack h = [] → _enforceLimits h = h.
Proof.
  intros Hu. unfold _enforceLimits. rewrite Hu. cbn.
  destruct (byteCap (maxBytes h)); cbn; destruct h; cbn in *; by subst.
Qed.

(** X18. Eviction reaches its fixed point in one run: running
    [_enforceLimits] a second time changes nothing, whatever the limits
    and the stacks are. *)
Theorem enforceLimits_idempotent (h : History) :
  _enforceLimits (_enforceLimits h) = _enforceLimits h.
Proof.
  destruct (byteCap (maxBytes h)) as [maxB|] eqn:Hcap.
  - destruct (enforce_byte_bound h maxB Hcap) as [Hle|Hnil].
    + apply enforce_id.
      * unfold withinCount. rewrite enforce_maxEntries.
        by apply enforce_count_bound.
      * unfold withinBytes. by rewrite enforce_maxBytes, Hcap.
    + by apply enforce_empty_undo.
  - apply enforce_id.
    + unfold withinCount. rewrite enforce_maxEntries.
      by apply enforce_count_bound.
    + unfold withinBytes. by rewrite enforce_maxBytes, Hcap.
Qed.

Lemma undo_pendingThumbs (e : Env) (h : History) :
  pendingThumbs (undo e h).2 = pendingThumbs h.
Proof. unfold undo, pop. branches; done. Qed.

Lemma enforce_pendingThumbs (h : History) :
  pendingThumbs (_enforceLimits h) = pendingThumbs h.
Proof.
  unfold _enforceLimits. destruct (evictByCount _ _ _) as [u1 m1].
  destruct (byteCap _); [destruct (evictByBytes _ _ _ _)|]; done.
Qed.

Lemma redo_pendingThumbs (e : Env) (h : History) :
  pendingThumbs (redo e h).2 = pendingThumbs h.
Proof.
  unfold redo, pop, cloneImageData, allocImageData.
  destruct (isTainted h || negb (canRedo h)); [done|].
  destruct (last (redoStack h)); cbn -[_updateUI _enforceLimits]; [|done].
  destruct (getImageData e _); cbn -[_updateUI _enforceLimits]; [|by frame|];
    match goal with
    | |- context [protectReturned ?g] => destruct (protectReturned g)
    end; frame; by rewrite ?enforce_pendingThumbs.
Qed.

Lemma pushHistory_pendingThumbs (e : Env) (lbl : option string) (h : History) :
  length (pendingThumbs (pushHistory e lbl h).2)
  = (length (pendingThumbs h)
     + (if (pushHistory e lbl h).1 && thumbEnabled h then 1 else 0))%nat.
Proof.
  pose proof (push_cases e lbl h) as H.
  destruct (negb (ctxReady h) || (canvasWidth e =? 0)).
  { rewrite H. cbn. lia. }
  destruct (getImageData e h) as [w ht px| |].
  - cbv zeta in H. destruct H as (Hret & _ & _ & _ & _ & _ & Hp).
    rewrite Hret, Hp. cbn.
    destruct (thumbEnabled h); [rewrite length_app; cbn|]; lia.
  - destruct H as (Hret & _ & _ & _ & _ & _ & Hp). rewrite Hret, Hp. cbn. lia.
  - rewrite H. cbn. lia.
Qed.

Lemma list_delete_absent {A} (l : list A) (k : nat) :
  l !! k = None → delete k l = l.
Proof.
  revert k. induction l as [|x l IH]; intros k Hk; [done|].
  destruct k as [|k]; [done|]. cbn in *. by rewrite IH.
Qed.

(** X19. Thumbnail jobs are scheduled by successful pushes only: a push
    adds exactly one pending job when it returns [true] and thumbnails are
    enabled and none otherwise; [undo()], [redo()] (whose captures get no
    thumbnail), [setMaxEntries] and [setThumbHeight] leave the pending
    jobs as they are; the completion of a job removes that job. *)
Theorem thumbnails_scheduled_by_successful_push_only (op : Op) (h : History) :
  match op with
  | Push e lbl =>
      length (pendingThumbs (step op h))
      = (length (pendingThumbs h)
         + (if (pushHistory e lbl h).1 && thumbEnabled h then 1 else 0))%nat
  | Restore e =>
      length (pendingThumbs (step op h))
      = (length (pendingThumbs h)
         + (if (pushHistory e None h).1 && thumbEnabled h then 1 else 0))%nat
  | ThumbDone k out =>
      pendingThumbs (step op h) = delete k (pendingThumbs h)
  | Undo _ | Redo _ | SetMaxEntries _ | SetThumbHeight _ =>
      pendingThumbs (step op h) = pendingThumbs h
  end.
Proof.
  destruct op as [e lbl|e|e|n|v|e|k out]; unfold step, exec.
  - pose proof (pushHistory_pendingThumbs e lbl h).
    by destruct (pushHistory e lbl h).
  - pose proof (undo_pendingThumbs e h). by destruct (undo e h).
  - pose proof (redo_pendingThumbs e h). by destruct (redo e h).
  - cbn [snd]. unfold setMaxEntries.
    destruct (JS.finite n) as [q|]; [|done]. destruct (JS.le q 0); [done|].
    frame. by rewrite enforce_pendingThumbs.
  - cbn [snd]. unfold setThumbHeight.
    destruct (JS.finite v) as [q|]; [|done].
    destruct (JS.ge q 48 && JS.le q 256); by frame.
  - cbn [snd]. unfold restoreImageData.
    destruct (negb (ctxReady h)) eqn:Hc.
    + unfold pushHistory. rewrite Hc. cbn. lia.
    + apply pushHistory_pendingThumbs.
  - cbn [snd]. unfold thumbJobDone.
    destruct (pendingThumbs h !! k) as [img|] eqn:Hk.
    + destruct out; by frame.
    + by rewrite list_delete_absent.
Qed.

(** X20. While the history is tainted, the stacks stay exactly as they
    are under every call except two: a push that succeeds, and
    [setMaxEntries], which does not look at the taint flag and evicts as
    usual. *)
Theorem tainted_stacks_change_only_by_push_or_limit (op : Op) (h : History) :
  isTainted h = true →
  (undoStack (step op h) = undoStack h ∧ redoStack (step op h) = redoStack h)
  ∨ (exec op h).1 = RBool true
  ∨ (∃ e, op = Restore e ∧ (pushHistory e None h).1 = true)
  ∨ (∃ n, op = SetMaxEntries n).
Proof.
  intros Ht. destruct op as [e lbl|e|e|n|v|e|k out]; unfold step, exec.
  - destruct (pushHistory e lbl h) as [[|] h'] eqn:E; cbn; [right; by left|].
    left. by apply pushHistory_false in E as (? & ? & _).
  - left. by rewrite undo_tainted.
  - left. by rewrite redo_tainted.
  - right. right. right. by exists n.
  - left. cbn [snd]. unfold setThumbHeight.
    destruct (JS.finite v) as [q|]; [|done].
    destruct (JS.ge q 48 && JS.le q 256); by frame.
  - cbn [snd]. unfold restoreImageData.
    destruct (negb (ctxReady h)); [by left|].
    destruct (pushHistory e None h) as [[|] h'] eqn:E; cbn.
    + right. right. left. exists e. by rewrite E.
    + left. by apply pushHistory_false in E as (? & ? & _).
  - left. cbn [snd]. unfold thumbJobDone.
    destruct (pendingThumbs h !! k); [|done]. destruct out; by frame.
Qed.

Lemma tainted_stacks_change_only_by_push_or_limit_witness :
  let h := run [Push surfaceBlocked None] twoLoads in
  isTainted h = true
  ∧ ((undoStack (step (SetMaxEntries (jsInt 1)) h) = undoStack h
      ∧ redoStack (step (SetMaxEntries (jsInt 1)) h) = redoStack h)
     ∨ (exec (SetMaxEntries (jsInt 1)) h).1 = RBool true
     ∨ (∃ e, SetMaxEntries (jsInt 1) = Restore e
             ∧ (pushHistory e None h).1 = true)
     ∨ (∃ n, SetMaxEntries (jsInt 1) = SetMaxEntries n)).
Proof.
  cbv zeta. split; [vm_compute; reflexivity|].
  apply (tainted_stacks_change_only_by_push_or_limit (SetMaxEntries (jsInt 1))
           (run [Push surfaceBlocked None] twoLoads)).
  vm_compute; reflexivity.
Defined.

(** On the tainted history above, [setMaxEntries(1)] does evict: the undo
    stack goes from two entries to one. *)
Example setMaxEntries_evicts_while_tainted :
  let h := run [Push surfaceBlocked None] twoLoads in
  isTainted h = true ∧ getUndoCount h = 2%nat
  ∧ getUndoCount (setMaxEntries (jsInt 1) h) = 1%nat.
Proof. cbv zeta. repeat split; vm_compute; reflexivity. Qed.

(** The notification sent by [setMaxEntries(1)] on a two-entry history:
    both the payload's own limits and the limits spread over it by the
    extra show the new limit, and the counts are those after eviction. *)
Example setMaxEntries_notifies_new_limits :
  let h' := setMaxEntries (jsInt 1) twoLoads in
  (λ p, (undoCount p, limits p, extra p)) <$> last (uiLog h')
  = Some (1%nat, mkLimits 1 (Some 12) false,
          ExtraLimits (mkLimits 1 (Some 12) false)).
Proof. vm_compute; reflexivity. Qed.
